(** * auto-request-review: the reviewer-resolution rule engine

    A shallow embedding of [src/reviewer.js] and of the collaborator
    functions of [src/github.js] it calls, followed by the properties the
    specification states about them.

    Conventions of the embedding:
    - reviewer identifiers, group names, glob patterns and logins are
      [string]s; a JavaScript array is a [list];
    - a JavaScript object used as a dictionary ([reviewers.groups],
      [reviewers.per_author], [files]) is an association list in the order
      [Object.entries] enumerates it, with first-match lookup;
    - an option of the configuration document that may be absent is an
      [option]: [None] is JavaScript's [undefined];
    - an array that can hold [undefined] next to strings (the candidate
      arrays of the asynchronous stages) is a [list (option string)];
    - asynchronous functions live in the monad [M]: the warnings logged so
      far together with either a returned value or a thrown error;
    - [core.info] traces carry no behaviour and are left out; [core.warning]
      is recorded;
    - of the packages the sources load, lodash's [partition] and
      [sampleSize] are embedded, the latter with its random draws as a
      parameter, and [minimatch] is a parameter. *)

From Stdlib Require Import ZArith String Ascii.
From stdpp Require Import base tactics option list strings.

Local Open Scope list_scope.

(* ===================================================================== *)
(** * JavaScript built-ins used by the sources *)
(* ===================================================================== *)

Module Js.

(** [s.startsWith(p)] *)
Definition startsWith (s p : string) : bool := String.prefix p s.

(** [s.includes(k)]: [k] occurs in [s] at some offset. *)
Fixpoint includes (s k : string) : bool :=
  String.prefix k s ||
  match s with
  | EmptyString => false
  | String _ s' => includes s' k
  end.

(** The characters of [s] from offset [n] on. *)
Fixpoint drop_chars (n : nat) (s : string) : string :=
  match n, s with
  | O, _ => s
  | S _, EmptyString => EmptyString
  | S n', String _ s' => drop_chars n' s'
  end.

(** [s.replace(pat, rep)] with a string pattern: only the first
    occurrence of [pat] is replaced. *)
Fixpoint replace (s pat rep : string) : string :=
  if String.prefix pat s then rep +:+ drop_chars (String.length pat) s
  else match s with
       | EmptyString => EmptyString
       | String c s' => String c (replace s' pat rep)
       end.

(** Insertion into a [Set]: a value already present is not added again. *)
Definition set_add {A} `{EqDecision A} (seen : list A) (x : A) : list A :=
  if decide (x ∈ seen) then seen else seen ++ [x].

(** [[ ...new Set(l) ]]: the values of [l] in order of first occurrence. *)
Definition uniq {A} `{EqDecision A} (l : list A) : list A :=
  fold_left set_add l [].

(** [l.flatMap(f)] *)
Definition flatMap {A B} (f : A → list B) (l : list A) : list B := l ≫= f.

(** An object used as a dictionary. *)
Definition obj (V : Type) : Type := list (string * V).

(** [o[k]] *)
Fixpoint get {V} (o : obj V) (k : string) : option V :=
  match o with
  | [] => None
  | (k', v) :: o' => if decide (k' = k) then Some v else get o' k
  end.

(** [Object.entries(o)] and [Object.keys(o)] *)
Definition entries {V} (o : obj V) : list (string * V) := o.
Definition keys {V} (o : obj V) : list string := o.*1.

(** Truthiness of a possibly absent boolean and of a string. *)
Definition truthy (b : option bool) : bool := default false b.
Definition truthy_string (s : string) : bool :=
  match s with EmptyString => false | _ => true end.

End Js.

(* ===================================================================== *)
(** * Errors, outcomes and the monad of the asynchronous functions *)
(* ===================================================================== *)

(** A thrown value: its [name] and, for a failed request, its [status]. *)
Record error : Type := Error { name : string; status : option Z }.

Definition TypeError : error := Error "TypeError" None.
Definition HttpError (code : Z) : error := Error "HttpError" (Some code).

Inductive outcome (A : Type) : Type :=
| Returned (a : A)
| Thrown (e : error).
Arguments Returned {A} a.
Arguments Thrown {A} e.

(** [core.warning(msg)] *)
Inductive log_entry : Type := Warning (msg : string).

Definition M (A : Type) : Type := (list log_entry * outcome A)%type.

Definition ret {A} (a : A) : M A := ([], Returned a).
Definition throw {A} (e : error) : M A := ([], Thrown e).
Definition warning (msg : string) : M unit := ([Warning msg], Returned tt).

Definition bind {A B} (m : M A) (k : A → M B) : M B :=
  match m with
  | (w, Returned a) => let '(w', r) := k a in (w ++ w', r)
  | (w, Thrown e) => (w, Thrown e)
  end.

Notation "'await' x ':=' m 'in' k" := (bind m (λ x, k))
  (at level 10, x name, m at level 100, k at level 200, only parsing).

(** [await Promise.all(l.map(f))]: the results in the order of [l]. *)
Fixpoint promise_all {A B} (f : A → M B) (l : list A) : M (list B) :=
  match l with
  | [] => ret []
  | x :: l' =>
      await y := f x in
      await ys := promise_all f l' in
      ret (y :: ys)
  end.

(** The value returned by a computation, if it returned. *)
Definition returned {A} (m : M A) : option A :=
  match m.2 with Returned a => Some a | Thrown _ => None end.

(* ===================================================================== *)
(** * lodash: [partition] and [sampleSize] *)
(* ===================================================================== *)

Module Lodash.

(** [partition(l, p)]: the elements satisfying [p], then the others. *)
Definition partition {A} (p : A → bool) (l : list A) : list A * list A :=
  (List.filter p l, List.filter (λ x, negb (p x)) l).

(** [baseClamp(n, 0, upper)] for an integer [n]. *)
Definition baseClamp (n : Z) (upper : nat) : nat :=
  Z.to_nat (Z.max 0 (Z.min n (Z.of_nat upper))).

(** [baseRandom(lower, upper)]: an integer of [lower..upper]; [draw] is
    what the random source yields for this call. *)
Definition baseRandom (draw lower upper : nat) : nat :=
  lower + draw mod (upper - lower + 1).

Section shuffle.
Context {A : Type}.
(** The random source: [rnd i] is the draw of the [i]-th iteration. *)
Variable rnd : nat → nat.

(** One iteration of the loop of [shuffleSelf]:
    [rand = baseRandom(index, lastIndex); value = array[rand];
     array[rand] = array[index]; array[index] = value]. *)
Definition shuffle_step (index : nat) (array : list A) : list A :=
  let lastIndex := length array - 1 in
  let rand := baseRandom (rnd index) index lastIndex in
  match array !! rand, array !! index with
  | Some value, Some at_index =>
      <[index := value]> (<[rand := at_index]> array)
  | _, _ => array
  end.

(** [while (++index < size)]: [todo] iterations are left. *)
Fixpoint shuffle_loop (todo index : nat) (array : list A) : list A :=
  match todo with
  | O => array
  | S todo' => shuffle_loop todo' (S index) (shuffle_step index array)
  end.

(** [shuffleSelf(array, size)]; [array.length = size] truncates. *)
Definition shuffleSelf (array : list A) (size : nat) : list A :=
  take size (shuffle_loop size 0 array).

(** [sampleSize(array, n)] on an array and an integer [n]. *)
Definition sampleSize (array : list A) (n : Z) : list A :=
  shuffleSelf array (baseClamp n (length array)).
End shuffle.

End Lodash.

(* ===================================================================== *)
(** * The configuration document *)
(* ===================================================================== *)

(** [config.options]; [None] in a field: the key is absent. *)
Record Options : Type := {
  enable_group_assignment : option bool;
  ignore_draft : option bool;
  ignored_keywords : option (list string);
  exclude : option (list string);
  number_of_reviewers : option Z;
  load_github_members : option bool;
  force_pick : option bool;
}.

Definition no_options : Options :=
  {| enable_group_assignment := None; ignore_draft := None;
     ignored_keywords := None; exclude := None; number_of_reviewers := None;
     load_github_members := None; force_pick := None |}.

(** [config.reviewers]; [defaults] is [Some] only for an array. *)
Record Reviewers : Type := {
  defaults : option (list string);
  per_author : option (Js.obj (list string));
  groups : option (Js.obj (list string));
}.

Record Config : Type := {
  options : option Options;
  reviewers : option Reviewers;
  files : option (Js.obj (list string));
}.

(** Object spread of two option objects, [{ ...d, ...o }]: a key of [o]
    overrides the same key of [d]. *)
Definition override {A} (d o : option A) : option A :=
  match o with Some v => Some v | None => d end.

Definition spread (d : Options) (o : option Options) : Options :=
  match o with
  | None => d
  | Some o =>
      {| enable_group_assignment :=
           override (enable_group_assignment d) (enable_group_assignment o);
         ignore_draft := override (ignore_draft d) (ignore_draft o);
         ignored_keywords :=
           override (ignored_keywords d) (ignored_keywords o);
         exclude := override (exclude d) (exclude o);
         number_of_reviewers :=
           override (number_of_reviewers d) (number_of_reviewers o);
         load_github_members :=
           override (load_github_members d) (load_github_members o);
         force_pick := override (force_pick d) (force_pick o) |}
  end.

(* ===================================================================== *)
(** * github.js: the collaborator *)
(* ===================================================================== *)

Module Github.

(** A member object of a response body. *)
Record member : Type := Member { login : string }.

(** What the functions below read from the run context and from the
    GitHub API: the owner of the repository and, for each request, either
    the response body or the error the request is rejected with. *)
Record api : Type := {
  owner : string;
  teams_listMembersInOrg : string → string → outcome (list member);
  pulls_listRequestedReviewers : outcome (list member);
  pulls_requestReviewers : list string → list string → outcome unit;
}.

(** [list_team_members(team)]; its result is a roster or [undefined]
    ([None]): the [catch] block returns only for status 404. *)
Definition list_team_members (gh : api) (team : string)
  : M (option (list string)) :=
  match teams_listMembersInOrg gh (owner gh) team with
  | Returned response_body => ret (Some (login <$> response_body))
  | Thrown error =>
      if decide (status error = Some 404%Z) then
        await _ := warning "No team was found" in
        ret (Some [])
      else ret None
  end.

(** [list_requested_reviewers()] *)
Definition list_requested_reviewers (gh : api) : M (list string) :=
  match pulls_listRequestedReviewers gh with
  | Returned response_body => ret (login <$> response_body)
  | Thrown error => throw error
  end.

(** The strings of an array, unless it holds [undefined]. *)
Definition strings (l : list (option string)) : option (list string) :=
  mapM id l.

(** [assign_reviewers(reviewers)]: calling [startsWith] on an entry that
    is [undefined] throws a [TypeError]. *)
Definition assign_reviewers (gh : api) (reviewers : list (option string))
  : M unit :=
  match strings reviewers with
  | None => throw TypeError
  | Some reviewers =>
      let '(teams_with_prefix, individuals) :=
        Lodash.partition (λ reviewer, Js.startsWith reviewer "team:")
                         reviewers in
      let teams :=
        (λ team_with_prefix, Js.replace team_with_prefix "team:" "")
          <$> teams_with_prefix in
      match pulls_requestReviewers gh individuals teams with
      | Returned _ => ret tt
      | Thrown error => throw error
      end
  end.

End Github.

(* ===================================================================== *)
(** * reviewer.js *)
(* ===================================================================== *)

Module Reviewer.

(** [(config.reviewers && config.reviewers.groups) || {}] *)
Definition groups_of (config : Config) : Js.obj (list string) :=
  default [] (reviewers config ≫= groups).

Definition replace_groups_with_individuals
    (reviewers : list string) (config : Config) : list string :=
  let groups := groups_of config in
  Js.flatMap (λ reviewer,
    match Js.get groups reviewer with
    | Some members => members
    | None => [reviewer]
    end) reviewers.

Definition exclude_reviewers (reviewers excludes : list string)
  : list string :=
  filter (λ reviewer, reviewer ∉ excludes) (Js.uniq reviewers).

Definition fetch_other_group_members (author : string) (config : Config)
  : list string :=
  let DEFAULT_OPTIONS :=
    {| enable_group_assignment := Some false; ignore_draft := None;
       ignored_keywords := None; exclude := None;
       number_of_reviewers := None; load_github_members := None;
       force_pick := None |} in
  let should_group_assign :=
    enable_group_assignment (spread DEFAULT_OPTIONS (options config)) in
  if negb (Js.truthy should_group_assign) then []
  else
    let groups := groups_of config in
    let belonging_group_names :=
      omap (λ group_name, group_name)
        (filter (λ group_name, Js.truthy_string (default "" group_name))
           ((λ '(group_name, members),
               if decide (author ∈ members) then Some group_name else None)
              <$> Js.entries groups)) in
    let other_group_members :=
      filter (λ group_member, group_member ≠ author)
        (Js.flatMap (λ group_name, default [] (Js.get groups group_name))
           belonging_group_names) in
    Js.uniq other_group_members.

Section changed_files.
(** [minimatch(path, pattern)], the glob matcher of the [minimatch]
    package, is a parameter. *)
Variable minimatch : string → string → bool.

(** The [excludes] argument is [[]] when the caller omits it. *)
Definition identify_reviewers_by_changed_files (config : Config)
    (changed_files excludes : list string) : list string :=
  match files config with
  | None => []
  | Some files =>
      let matching_reviewers :=
        Js.flatMap (λ '(glob_pattern, reviewers),
          if existsb (λ changed_file, minimatch changed_file glob_pattern)
                     changed_files
          then reviewers else []) (Js.entries files) in
      let individuals :=
        replace_groups_with_individuals matching_reviewers config in
      exclude_reviewers individuals excludes
  end.
End changed_files.

Definition identify_reviewers_by_author (config : Config)
    (specified_author : string) : list string :=
  match reviewers config ≫= per_author with
  | None => []
  | Some per_author =>
      let matching_authors :=
        filter (λ author,
            author = specified_author ∨
            specified_author ∈
              replace_groups_with_individuals [author] config)
          (Js.keys per_author) in
      let matching_reviewers :=
        Js.flatMap (λ matching_author,
            let reviewers := default [] (Js.get per_author matching_author) in
            replace_groups_with_individuals reviewers config)
          matching_authors in
      filter (λ reviewer, reviewer ≠ specified_author) matching_reviewers
  end.

Definition should_request_review (title : string) (is_draft : bool)
    (config : Config) : bool :=
  let DEFAULT_OPTIONS :=
    {| enable_group_assignment := None; ignore_draft := Some true;
       ignored_keywords := Some ["DO NOT REVIEW"]; exclude := None;
       number_of_reviewers := None; load_github_members := None;
       force_pick := None |} in
  let effective := spread DEFAULT_OPTIONS (options config) in
  let should_ignore_draft := ignore_draft effective in
  let ignored_keywords := default [] (ignored_keywords effective) in
  if Js.truthy should_ignore_draft && is_draft then false
  else negb (existsb (λ keyword, Js.includes title keyword) ignored_keywords).

(** The [excludes] argument is [[]] when the caller omits it. *)
Definition fetch_default_reviewers (config : Config)
    (excludes : list string) : list string :=
  match reviewers config ≫= defaults with
  | None => []
  | Some defaults =>
      let individuals := replace_groups_with_individuals defaults config in
      exclude_reviewers individuals excludes
  end.

Definition filter_excluded_reviewers (reviewers : list string)
    (config : Config) : list string :=
  let exclude := exclude (spread no_options (options config)) in
  let excluded_individuals :=
    replace_groups_with_individuals (default [] exclude) config in
  exclude_reviewers reviewers excluded_individuals.

(** [rnd] is the random source [sampleSize] draws from. *)
Definition randomly_pick_reviewers {A} (rnd : nat → nat)
    (reviewers : list A) (config : Config) : list A :=
  let number_of_reviewers :=
    number_of_reviewers (spread no_options (options config)) in
  match number_of_reviewers with
  | None => reviewers
  | Some n => Lodash.sampleSize rnd reviewers n
  end.

(** [team_members.flat()]: a roster is spliced in, [undefined] stays an
    entry. *)
Definition flat (team_members : list (option (list string)))
  : list (option string) :=
  team_members ≫= (λ members,
    match members with
    | Some members => Some <$> members
    | None => [None]
    end).

(** [team_members.filter((members) => members.includes(author))]:
    [includes] on a roster that is [undefined] throws a [TypeError]. *)
Definition filter_includes (author : string)
    (team_members : list (option (list string)))
  : M (list (option (list string))) :=
  match mapM id team_members with
  | None => throw TypeError
  | Some rosters =>
      ret (Some <$> filter (λ members, author ∈ members) rosters)
  end.

Definition fetch_author_belongs_to_github_team_members (gh : Github.api)
    (reviewers : list (option string)) (config : Config) (author : string)
  : M (list (option string)) :=
  let DEFAULT_OPTIONS :=
    {| enable_group_assignment := None; ignore_draft := None;
       ignored_keywords := None; exclude := None;
       number_of_reviewers := None; load_github_members := None;
       force_pick := Some false |} in
  let effective := spread DEFAULT_OPTIONS (options config) in
  let load_github_members := load_github_members effective in
  let force_pick := force_pick effective in
  match load_github_members with
  | None => ret reviewers
  | Some _ =>
      match Github.strings reviewers with
      | None => throw TypeError
      | Some strings =>
          let '(teams_with_prefix, individuals) :=
            Lodash.partition (λ reviewer, Js.startsWith reviewer "team:")
                             strings in
          let teams :=
            (λ team_with_prefix, Js.replace team_with_prefix "team:" "")
              <$> teams_with_prefix in
          await team_members :=
            promise_all (Github.list_team_members gh) teams in
          await team_members :=
            (if negb (Js.truthy force_pick)
             then filter_includes author team_members
             else ret team_members) in
          let team_members :=
            filter (λ member, member ≠ Some author) (flat team_members) in
          ret (Js.uniq ((Some <$> individuals) ++ team_members))
      end
  end.

Definition filter_already_requested_reviewers (gh : Github.api)
    (reviewers : list (option string)) (config : Config)
  : M (list (option string)) :=
  let load_github_members :=
    load_github_members (spread no_options (options config)) in
  match load_github_members with
  | None => ret reviewers
  | Some _ =>
      await requested_reviewers := Github.list_requested_reviewers gh in
      ret (filter (λ reviewer, reviewer ∉ Some <$> requested_reviewers)
                  reviewers)
  end.

End Reviewer.

(* ===================================================================== *)
(** * The pipeline *)
(* ===================================================================== *)

Module Pipeline.
Import Reviewer.

Section pipeline.
Variable minimatch : string → string → bool.
Variable rnd : nat → nat.
Variable gh : Github.api.

(** Modelled from the spec: the global exclusion list of the missing
    entry point (index.js), the [options.exclude] list resolved through
    group resolution. *)
Definition global_excludes (config : Config) : list string :=
  replace_groups_with_individuals (default [] (options config ≫= exclude))
    config.

(** Modelled from the spec: the entry point that chains the stages
    (index.js) is not among the sources.  Candidate collection is the
    union of the default, path-matched and author-matched reviewers,
    augmented by the group fan-out; each source expands groups to
    individuals, and the two sources that take an exclusion list apply
    the global exclusion list. *)
Definition collect_candidates (config : Config) (author : string)
    (changed_files : list string) : list string :=
  fetch_default_reviewers config (global_excludes config)
  ++ identify_reviewers_by_changed_files minimatch config changed_files
       (global_excludes config)
  ++ identify_reviewers_by_author config author
  ++ fetch_other_group_members author config.

(** Modelled from the spec: the deduplication and exclusion stage of
    the missing entry point merges all candidate sources, drops
    duplicates and drops the globally excluded individuals. *)
Definition candidate_reviewers (config : Config) (author : string)
    (changed_files : list string) : list string :=
  filter_excluded_reviewers
    (collect_candidates config author changed_files) config.

(** Modelled from the spec: the remaining stages of the missing entry
    point, in the order of the system overview: sampling, then live
    team reconciliation, then the already-requested filter.  The value
    returned is the sequence handed to [assign_reviewers]. *)
Definition reviewers_to_assign (config : Config) (author : string)
    (changed_files : list string) : M (list (option string)) :=
  let candidates := candidate_reviewers config author changed_files in
  let sampled := randomly_pick_reviewers rnd candidates config in
  await reconciled :=
    fetch_author_belongs_to_github_team_members gh (Some <$> sampled)
      config author in
  filter_already_requested_reviewers gh reconciled config.
End pipeline.

End Pipeline.

(* ===================================================================== *)
(** * github.js: paginated retrieval of the changed files *)
(* ===================================================================== *)

Module ChangedFiles.

(** A file object of a response body. *)
Record file : Type := File { filename : string }.

Definition per_page : nat := 100.

(** The [do ... while] loop of [fetch_changed_files].  [listFiles page
    per_page] is what [octokit.pulls.listFiles] answers for that page;
    [page] is the number of the page fetched last and [changed_files] the
    names pushed so far.  The loop has no bound of its own: [fuel] is the
    number of iterations granted, and [None] means that they did not
    suffice. *)
Fixpoint fetch_loop (listFiles : nat → nat → outcome (list file))
    (fuel page : nat) (changed_files : list string)
  : option (M (list string)) :=
  match fuel with
  | O => None
  | S fuel' =>
      let page := page + 1 in
      match listFiles page per_page with
      | Thrown error => Some (throw error)
      | Returned response_body =>
          let number_of_files_in_current_page := length response_body in
          let changed_files :=
            changed_files ++ (filename <$> response_body) in
          if decide (number_of_files_in_current_page = per_page)
          then fetch_loop listFiles fuel' page changed_files
          else Some (ret changed_files)
      end
  end.

(** [fetch_changed_files()] *)
Definition fetch_changed_files (listFiles : nat → nat → outcome (list file))
    (fuel : nat) : option (M (list string)) :=
  fetch_loop listFiles fuel 0 [].

End ChangedFiles.

(* ===================================================================== *)
(** * github.js: the memoised run context *)
(* ===================================================================== *)

Module Cache.

Section cache.
(** The run context object and the API client are opaque here. *)
Context {context octokit : Type}.

(** What the getters read when nothing is cached: [github.context],
    [core.getInput(name)] and [github.getOctokit(token)]. *)
Record environment : Type := {
  github_context : context;
  getInput : string → string;
  getOctokit : string → outcome octokit;
}.

(** The four module-level variables; [None] is [undefined]. *)
Record caches : Type := {
  context_cache : option context;
  token_cache : option string;
  config_path_cache : option string;
  octokit_cache : option octokit;
}.

(** The state of a freshly loaded module. *)
Definition initial : caches :=
  {| context_cache := None; token_cache := None; config_path_cache := None;
     octokit_cache := None |}.

(** [cache || (cache = value)] on a string: the empty string is falsy, so
    it is stored but never served. *)
Definition cached_string (cache : option string) : option string :=
  match cache with
  | Some s => if Js.truthy_string s then Some s else None
  | None => None
  end.

Definition get_context (env : environment) (c : caches) : context * caches :=
  match context_cache c with
  | Some cached => (cached, c)
  | None =>
      (github_context env,
       {| context_cache := Some (github_context env);
          token_cache := token_cache c;
          config_path_cache := config_path_cache c;
          octokit_cache := octokit_cache c |})
  end.

Definition get_token (env : environment) (c : caches) : string * caches :=
  match cached_string (token_cache c) with
  | Some cached => (cached, c)
  | None =>
      (getInput env "token",
       {| context_cache := context_cache c;
          token_cache := Some (getInput env "token");
          config_path_cache := config_path_cache c;
          octokit_cache := octokit_cache c |})
  end.

Definition get_config_path (env : environment) (c : caches)
  : string * caches :=
  match cached_string (config_path_cache c) with
  | Some cached => (cached, c)
  | None =>
      (getInput env "config",
       {| context_cache := context_cache c;
          token_cache := token_cache c;
          config_path_cache := Some (getInput env "config");
          octokit_cache := octokit_cache c |})
  end.

Definition get_octokit (env : environment) (c : caches)
  : outcome octokit * caches :=
  match octokit_cache c with
  | Some cached => (Returned cached, c)
  | None =>
      let '(token, c) := get_token env c in
      match getOctokit env token with
      | Returned client =>
          (Returned client,
           {| context_cache := context_cache c;
              token_cache := token_cache c;
              config_path_cache := config_path_cache c;
              octokit_cache := Some client |})
      | Thrown error => (Thrown error, c)
      end
  end.

Definition clear_cache (c : caches) : caches := initial.
End cache.

Arguments environment : clear implicits.
Arguments caches : clear implicits.

End Cache.

(* ===================================================================== *)
(** * Vocabulary of the statements *)
(* ===================================================================== *)

(** [k] occurs in [s] as a literal substring. *)
Definition substring_of (k s : string) : Prop :=
  ∃ before after : string, s = before +:+ k +:+ after.

(** The [load_github_members] entry of [config.options], if present. *)
Definition load_github_members_of (config : Config) : option bool :=
  options config ≫= load_github_members.

(** The effective eligibility options: the configured value, else the
    default of [should_request_review]. *)
Definition effective_ignore_draft (config : Config) : bool :=
  default true (options config ≫= ignore_draft).
Definition effective_ignored_keywords (config : Config) : list string :=
  default ["DO NOT REVIEW"] (options config ≫= ignored_keywords).

(** The [number_of_reviewers] entry of [config.options], if present. *)
Definition number_of_reviewers_of (config : Config) : option Z :=
  options config ≫= number_of_reviewers.

(** Options with only [number_of_reviewers] set. *)
Definition pick (n : Z) : Options :=
  {| enable_group_assignment := None; ignore_draft := None;
     ignored_keywords := None; exclude := None;
     number_of_reviewers := Some n; load_github_members := None;
     force_pick := None |}.

(** The entries of [options.exclude]. *)
Definition exclude_of (config : Config) : list string :=
  default [] (options config ≫= exclude).

(** The configuration with [options] replaced. *)
Definition with_options (o : Options) (config : Config) : Config :=
  {| options := Some o; reviewers := reviewers config;
     files := files config |}.

(** Options with only the listed keys set. *)
Definition live (load force : option bool) : Options :=
  {| enable_group_assignment := None; ignore_draft := None;
     ignored_keywords := None; exclude := None; number_of_reviewers := None;
     load_github_members := load; force_pick := force |}.

(** The roster [list_team_members] returns for a team, if it returns one. *)
Definition roster (gh : Github.api) (team : string) : option (list string) :=
  mjoin (returned (Github.list_team_members gh team)).

(** The configuration in which live reconciliation is on and [force_pick]
    has the given value. *)
Definition live_config (force : bool) : Config :=
  {| options := Some (live (Some true) (Some force)); reviewers := None;
     files := None |}.

(** The effective [force_pick]: absent counts as false. *)
Definition force_pick_of (config : Config) : bool :=
  Js.truthy (options config ≫= force_pick).

(** The team references of a candidate list, and the other candidates. *)
Definition is_team (reviewer : string) : bool :=
  Js.startsWith reviewer "team:".
Definition team_slug (reviewer : string) : string :=
  Js.replace reviewer "team:" "".

(** The reconciliation in the words of the specification: of the rosters
    looked up, keep all under [force_pick] and otherwise those that include
    the author; flatten them, remove the author, join the candidates that
    are not team references, and deduplicate. *)
Definition reconciled (rosters : list (list string)) (force : bool)
    (author : string) (l : list string) : list string :=
  let kept :=
    if force then rosters
    else filter (λ members, author ∈ members) rosters in
  Js.uniq (List.filter (λ reviewer, negb (is_team reviewer)) l
           ++ filter (λ member, member ≠ author) (concat kept)).

(** A configuration, an API and a matcher for the examples. *)
Definition empty_config : Config :=
  {| options := None; reviewers := None; files := None |}.

Definition api_of (members : string → outcome (list Github.member))
    (requested : outcome (list Github.member)) : Github.api :=
  {| Github.owner := "spheric";
     Github.teams_listMembersInOrg := λ _ team, members team;
     Github.pulls_listRequestedReviewers := requested;
     Github.pulls_requestReviewers := λ _ _, Returned tt |}.

(** A pattern without glob metacharacters matches exactly itself. *)
Definition literal_match (path pattern : string) : bool :=
  String.eqb path pattern.

(** A server that holds the files [all] of the pull request and answers
    each request with the corresponding page. *)
Definition serve (all : list ChangedFiles.file) (page per_page : nat)
  : outcome (list ChangedFiles.file) :=
  Returned (take per_page (drop ((page - 1) * per_page) all)).

(** The keys of an object are pairwise distinct. *)
Definition distinct_keys {V} (o : Js.obj V) : Prop := NoDup (Js.keys o).

(** No member of a group names a group. *)
Definition flat_groups (config : Config) : Prop :=
  ∀ group members member,
    (group, members) ∈ Reviewer.groups_of config → member ∈ members →
    member ∉ Js.keys (Reviewer.groups_of config).

(** The effective [enable_group_assignment]: absent counts as false. *)
Definition group_assignment_of (config : Config) : bool :=
  Js.truthy (options config ≫= enable_group_assignment).

(** The team reference of a slug. *)
Definition team_reference (slug : string) : string := "team:" +:+ slug.

(** A candidate given by kind, a login or the slug of a team, and the
    identifier that stands for it in a reviewer list. *)
Definition reference_of (candidate : string + string) : string :=
  match candidate with
  | inl login => login
  | inr slug => team_reference slug
  end.
Definition logins_of (candidates : list (string + string)) : list string :=
  omap (λ candidate, match candidate with
                     | inl login => Some login
                     | inr _ => None
                     end) candidates.
Definition slugs_of (candidates : list (string + string)) : list string :=
  omap (λ candidate, match candidate with
                     | inl _ => None
                     | inr slug => Some slug
                     end) candidates.

(** The lookup of a team is rejected with status 404. *)
Definition not_found (gh : Github.api) (team : string) : bool :=
  match Github.teams_listMembersInOrg gh (Github.owner gh) team with
  | Returned _ => false
  | Thrown error => bool_decide (status error = Some 404%Z)
  end.

(* ===================================================================== *)
(** * Properties of the built-ins *)
(* ===================================================================== *)

Section uniq.
Context {A : Type} `{EqDecision A}.
Implicit Types (l seen : list A) (x : A).

Lemma elem_of_set_add seen x y :
  y ∈ Js.set_add seen x ↔ y ∈ seen ∨ y = x.
Proof.
  unfold Js.set_add. case_decide.
  - split; [auto | intros [?| ->]; done].
  - rewrite elem_of_app, list_elem_of_singleton. done.
Qed.

Lemma NoDup_set_add seen x : NoDup seen → NoDup (Js.set_add seen x).
Proof.
  intros Hseen. unfold Js.set_add. case_decide; [done|].
  apply NoDup_app. split_and!; [done| |apply NoDup_singleton].
  intros y Hy ->%list_elem_of_singleton. done.
Qed.

Lemma elem_of_fold_set_add l seen y :
  y ∈ fold_left Js.set_add l seen ↔ y ∈ seen ∨ y ∈ l.
Proof.
  revert seen. induction l as [|x l IH]; intros seen; simpl.
  - rewrite elem_of_nil. tauto.
  - rewrite IH, elem_of_set_add, elem_of_cons. tauto.
Qed.

Lemma NoDup_fold_set_add l seen :
  NoDup seen → NoDup (fold_left Js.set_add l seen).
Proof.
  revert seen. induction l as [|x l IH]; intros seen Hseen; simpl; [done|].
  apply IH, NoDup_set_add, Hseen.
Qed.

Lemma fold_set_add_fresh l seen :
  NoDup (seen ++ l) → fold_left Js.set_add l seen = seen ++ l.
Proof.
  revert seen. induction l as [|x l IH]; intros seen Hnd; simpl.
  - by rewrite app_nil_r.
  - assert (x ∉ seen) as Hx.
    { apply NoDup_app in Hnd as (_ & Hdisj & _). intros Hin.
      apply (Hdisj x Hin). left. }
    unfold Js.set_add at 2. rewrite decide_False by done.
    rewrite IH; rewrite <- app_assoc; done.
Qed.

Lemma elem_of_uniq l x : x ∈ Js.uniq l ↔ x ∈ l.
Proof.
  unfold Js.uniq. rewrite elem_of_fold_set_add, elem_of_nil. tauto.
Qed.

Lemma NoDup_uniq l : NoDup (Js.uniq l).
Proof. apply NoDup_fold_set_add, NoDup_nil_2. Qed.

Lemma uniq_NoDup l : NoDup l → Js.uniq l = l.
Proof. intros Hl. unfold Js.uniq. by rewrite fold_set_add_fresh. Qed.
End uniq.

Lemma append_String (c : ascii) (s t : string) :
  String c s +:+ t = String c (s +:+ t).
Proof. reflexivity. Qed.

Lemma prefix_spec (p s : string) :
  String.prefix p s = true ↔ ∃ rest : string, s = p +:+ rest.
Proof.
  revert s. induction p as [|c p IH]; intros s.
  - split; [eauto | by destruct s].
  - destruct s as [|d s]; simpl; [split; [done | intros [? [=]]]|].
    destruct (Ascii.ascii_dec c d) as [->|Hne].
    + rewrite IH. split; intros [rest Hrest]; exists rest;
        rewrite append_String in *; congruence.
    + split; [done | intros [? [=]]; done].
Qed.

Lemma includes_spec (s k : string) :
  Js.includes s k = true ↔ substring_of k s.
Proof.
  unfold substring_of. induction s as [|c s IH]; cbn [Js.includes].
  - rewrite orb_false_r, prefix_spec. split.
    + intros [rest ->]. by exists "", rest.
    + intros ([|? before] & after & Heq); [eauto | done].
  - rewrite orb_true_iff, prefix_spec, IH. split.
    + intros [[rest Hrest] | (before & after & ->)].
      * by exists "", rest.
      * by exists (String c before), after.
    + intros ([|d before] & after & Heq).
      * left. eauto.
      * right. exists before, after. rewrite append_String in Heq.
        congruence.
Qed.

Lemma get_Some_elem_of {V} (o : Js.obj V) (k : string) (v : V) :
  Js.get o k = Some v → (k, v) ∈ o.
Proof.
  induction o as [|[k' v'] o IH]; simpl; [done|].
  case_decide as Hk; [intros [= ->]; subst; left | right; auto].
Qed.

Lemma get_None_keys {V} (o : Js.obj V) (k : string) :
  Js.get o k = None ↔ k ∉ Js.keys o.
Proof.
  unfold Js.keys. induction o as [|[k' v'] o IH]; simpl.
  - split; [intros _; apply not_elem_of_nil | done].
  - rewrite not_elem_of_cons. case_decide as Hk.
    + split; [done | intros [Hne _]; by destruct Hne].
    + rewrite IH. split; [by split; [intros ->|] | by intros [_ ?]].
Qed.

(* ===================================================================== *)
(** * Group resolution and exclusion *)
(* ===================================================================== *)

Import Reviewer.

Lemma spread_no_options (o : option Options) :
  spread no_options o = default no_options o.
Proof.
  destruct o as [[a b c d e f g]|]; [|done].
  by destruct a, b, c, d, e, f, g.
Qed.

Lemma elem_of_exclude_reviewers (reviewers excludes : list string) x :
  x ∈ exclude_reviewers reviewers excludes ↔ x ∈ reviewers ∧ x ∉ excludes.
Proof.
  unfold exclude_reviewers. rewrite list_elem_of_filter, elem_of_uniq. tauto.
Qed.

Lemma NoDup_exclude_reviewers (reviewers excludes : list string) :
  NoDup (exclude_reviewers reviewers excludes).
Proof. apply NoDup_filter, NoDup_uniq. Qed.

Lemma elem_of_replace_groups (reviewers : list string) config x :
  x ∈ replace_groups_with_individuals reviewers config ↔
  ∃ reviewer, reviewer ∈ reviewers ∧
    match Js.get (groups_of config) reviewer with
    | Some members => x ∈ members
    | None => x = reviewer
    end.
Proof.
  unfold replace_groups_with_individuals, Js.flatMap.
  rewrite list_elem_of_bind. split; intros (r & H1 & H2); exists r.
  - split; [done|]. destruct (Js.get _ r); [done|].
    by apply list_elem_of_singleton in H1.
  - split; [|done]. destruct (Js.get _ r); [done|].
    by apply list_elem_of_singleton.
Qed.

Lemma replace_groups_cons reviewer (reviewers : list string) config :
  replace_groups_with_individuals (reviewer :: reviewers) config =
  match Js.get (groups_of config) reviewer with
  | Some members => members
  | None => [reviewer]
  end ++ replace_groups_with_individuals reviewers config.
Proof. reflexivity. Qed.

Lemma replace_groups_app (l1 l2 : list string) config :
  replace_groups_with_individuals (l1 ++ l2) config =
  replace_groups_with_individuals l1 config
  ++ replace_groups_with_individuals l2 config.
Proof. unfold replace_groups_with_individuals, Js.flatMap. apply bind_app. Qed.

Lemma replace_groups_individuals (reviewers : list string) config :
  (∀ reviewer, reviewer ∈ reviewers →
     reviewer ∉ Js.keys (groups_of config)) →
  replace_groups_with_individuals reviewers config = reviewers.
Proof.
  induction reviewers as [|r l IH]; intros Hl; [done|].
  rewrite replace_groups_cons.
  assert (Js.get (groups_of config) r = None) as ->.
  { apply get_None_keys, Hl. left. }
  simpl. f_equal. apply IH. intros r' Hr'. apply Hl. by right.
Qed.

Lemma filter_excluded_reviewers_unfold (reviewers : list string) config :
  filter_excluded_reviewers reviewers config =
  exclude_reviewers reviewers
    (replace_groups_with_individuals (exclude_of config) config).
Proof.
  unfold filter_excluded_reviewers, exclude_of.
  rewrite spread_no_options. by destruct (options config).
Qed.

(** Expansion is one level deep: where the members of every group are
    individuals, expanding any list twice is expanding it once. *)
Lemma replace_groups_twice (reviewers : list string) config :
  (∀ group members member,
     (group, members) ∈ groups_of config → member ∈ members →
     member ∉ Js.keys (groups_of config)) →
  replace_groups_with_individuals
    (replace_groups_with_individuals reviewers config) config =
  replace_groups_with_individuals reviewers config.
Proof.
  intros Hflat. induction reviewers as [|r l IH]; [done|].
  rewrite replace_groups_cons, replace_groups_app, IH. f_equal.
  destruct (Js.get (groups_of config) r) as [members|] eqn:Hr.
  - apply replace_groups_individuals. intros m Hm.
    eapply Hflat; [by apply get_Some_elem_of|done].
  - rewrite replace_groups_cons, Hr. done.
Qed.

(** C8.  Group expansion is idempotent: a list none of whose identifiers
    names a key of [reviewers.groups] is returned unchanged by
    [replace_groups_with_individuals], and expanding its output again gives
    the same result as expanding once.  The expansion being one level
    deep, the latter extends to every list as soon as the members of the
    groups are individuals. *)
Theorem replace_groups_idempotent config :
  (∀ reviewers : list string,
     (∀ reviewer, reviewer ∈ reviewers →
                  reviewer ∉ Js.keys (groups_of config)) →
     replace_groups_with_individuals reviewers config = reviewers ∧
     replace_groups_with_individuals
       (replace_groups_with_individuals reviewers config) config =
     replace_groups_with_individuals reviewers config) ∧
  ((∀ group members member,
      (group, members) ∈ groups_of config → member ∈ members →
      member ∉ Js.keys (groups_of config)) →
   ∀ reviewers : list string,
     replace_groups_with_individuals
       (replace_groups_with_individuals reviewers config) config =
     replace_groups_with_individuals reviewers config).
Proof.
  split.
  - intros reviewers Hind.
    pose proof (replace_groups_individuals _ _ Hind) as Heq.
    split; [done|]. by rewrite !Heq.
  - intros Hflat reviewers. by apply replace_groups_twice.
Qed.

(** An instance of C8 on a configuration that declares a group: a list of
    individuals, and a list that names the group. *)
Lemma replace_groups_idempotent_witness :
  let config :=
    {| options := None;
       reviewers := Some {| defaults := None; per_author := None;
                            groups := Some [("backend", ["bob"; "carol"])] |};
       files := None |} in
  (replace_groups_with_individuals ["alice"; "bob"] config = ["alice"; "bob"] ∧
   replace_groups_with_individuals
     (replace_groups_with_individuals ["alice"; "bob"] config) config =
   replace_groups_with_individuals ["alice"; "bob"] config) ∧
  replace_groups_with_individuals
    (replace_groups_with_individuals ["alice"; "backend"] config) config =
  replace_groups_with_individuals ["alice"; "backend"] config.
Proof.
  intros config.
  destruct (replace_groups_idempotent config) as [Hindividuals Hflat].
  assert (∀ x : string, x ∈ ["bob"; "carol"] ∨ x ∈ ["alice"; "bob"] →
                        x ∉ Js.keys (groups_of config)) as Hkeys.
  { intros x Hx Hkey%list_elem_of_singleton. subst x.
    destruct Hx as [Hx|Hx];
      apply elem_of_cons in Hx as [Hx|Hx%list_elem_of_singleton];
      discriminate Hx. }
  split.
  - apply (Hindividuals ["alice"; "bob"]). intros reviewer Hin.
    apply Hkeys. by right.
  - apply Hflat. intros group members member Hgroup Hmember.
    apply list_elem_of_singleton in Hgroup. injection Hgroup as -> ->.
    apply Hkeys. by left.
Defined.

(** A group nested in a group is expanded one level only, so a second
    expansion goes one level further. *)
Example replace_groups_nested :
  let config :=
    {| options := None;
       reviewers := Some {| defaults := None; per_author := None;
                            groups := Some [("all", ["backend"]);
                                            ("backend", ["bob"])] |};
       files := None |} in
  replace_groups_with_individuals ["all"] config = ["backend"] ∧
  replace_groups_with_individuals ["backend"] config = ["bob"].
Proof. done. Qed.

(** C6.  The global exclusion pass removes from the candidates the group
    expansion of [options.exclude]: a candidate survives exactly when it is
    not among the expanded exclusions, so every configured member of a
    group listed in [options.exclude] is absent from the output, whatever
    rule contributed it. *)
Theorem filter_excluded_reviewers_expands_groups
    (reviewers : list string) config :
  (∀ x, x ∈ filter_excluded_reviewers reviewers config ↔
        x ∈ reviewers ∧
        x ∉ replace_groups_with_individuals (exclude_of config) config) ∧
  (∀ G members member,
     G ∈ exclude_of config →
     Js.get (groups_of config) G = Some members →
     member ∈ members →
     member ∉ filter_excluded_reviewers reviewers config).
Proof.
  split.
  - intros x. rewrite filter_excluded_reviewers_unfold.
    apply elem_of_exclude_reviewers.
  - intros G members member HG Hget Hmember.
    rewrite filter_excluded_reviewers_unfold, elem_of_exclude_reviewers.
    intros [_ Hnot]. apply Hnot, elem_of_replace_groups.
    exists G. by rewrite Hget.
Qed.

(** An instance of C6: [carol] is a candidate in her own right and goes
    with the excluded group [backend]. *)
Lemma filter_excluded_reviewers_expands_groups_witness :
  let config :=
    {| options := Some {| enable_group_assignment := None;
                          ignore_draft := None; ignored_keywords := None;
                          exclude := Some ["backend"];
                          number_of_reviewers := None;
                          load_github_members := None; force_pick := None |};
       reviewers := Some {| defaults := None; per_author := None;
                            groups := Some [("backend", ["bob"; "carol"])] |};
       files := None |} in
  ("carol" ∉ filter_excluded_reviewers ["alice"; "carol"] config) ∧
  filter_excluded_reviewers ["alice"; "carol"] config = ["alice"].
Proof.
  intros config. split; [|done].
  apply (proj2 (filter_excluded_reviewers_expands_groups
                  ["alice"; "carol"] config) "backend" ["bob"; "carol"]).
  - vm_compute. left.
  - reflexivity.
  - right. left.
Defined.

(* ===================================================================== *)
(** * The eligibility gate *)
(* ===================================================================== *)

Lemma existsb_elem_of {A} (p : A → bool) (l : list A) :
  existsb p l = true ↔ ∃ x, x ∈ l ∧ p x = true.
Proof.
  rewrite existsb_exists. by setoid_rewrite list_elem_of_In.
Qed.

Lemma should_request_review_unfold title is_draft config :
  should_request_review title is_draft config =
  if effective_ignore_draft config && is_draft then false
  else negb (existsb (λ keyword, Js.includes title keyword)
               (effective_ignored_keywords config)).
Proof.
  unfold should_request_review, effective_ignore_draft,
    effective_ignored_keywords.
  destruct (options config) as [o|]; [|done]. simpl.
  by destruct (ignore_draft o), (ignored_keywords o).
Qed.

(** C5.  [should_request_review] returns false when the effective
    [ignore_draft] option is true and the pull request is a draft;
    otherwise it returns false exactly when the title contains one of the
    effective ignored keywords as a literal substring, and true
    otherwise. *)
Theorem should_request_review_spec title is_draft config :
  (effective_ignore_draft config = true → is_draft = true →
   should_request_review title is_draft config = false) ∧
  (¬ (effective_ignore_draft config = true ∧ is_draft = true) →
   (should_request_review title is_draft config = false ↔
    ∃ keyword, keyword ∈ effective_ignored_keywords config ∧
               substring_of keyword title) ∧
   (should_request_review title is_draft config = true ↔
    ¬ ∃ keyword, keyword ∈ effective_ignored_keywords config ∧
                 substring_of keyword title)).
Proof.
  rewrite should_request_review_unfold. split.
  - by intros -> ->.
  - intros Hnot.
    assert (effective_ignore_draft config && is_draft = false) as ->.
    { apply andb_false_iff.
      destruct (effective_ignore_draft config), is_draft; auto.
      by destruct Hnot. }
    assert (existsb (λ keyword, Js.includes title keyword)
              (effective_ignored_keywords config) = true ↔
            ∃ keyword, keyword ∈ effective_ignored_keywords config ∧
                       substring_of keyword title) as Hex.
    { rewrite existsb_elem_of. by setoid_rewrite includes_spec. }
    rewrite <- Hex.
    destruct (existsb _ _); simpl; split; split; try done.
    all: intros H; by destruct H.
Qed.

(** An instance of C5: a draft under the default options, and a title
    carrying the default keyword. *)
Lemma should_request_review_spec_witness :
  should_request_review "Add cache" true empty_config = false ∧
  (should_request_review "DO NOT REVIEW: cache" false empty_config = false ↔
   ∃ keyword, keyword ∈ effective_ignored_keywords empty_config ∧
              substring_of keyword "DO NOT REVIEW: cache").
Proof.
  split.
  - apply (proj1 (should_request_review_spec "Add cache" true empty_config));
      reflexivity.
  - apply (proj2 (should_request_review_spec "DO NOT REVIEW: cache" false
                    empty_config)).
    intros [_ Hdraft]. discriminate Hdraft.
Defined.

(** The keyword test is case-sensitive. *)
Example should_request_review_case :
  should_request_review "do not review: cache" false empty_config = true.
Proof. reflexivity. Qed.

(* ===================================================================== *)
(** * The author is not a candidate *)
(* ===================================================================== *)






Lemma NoDup_filter_excluded_reviewers (reviewers : list string) config :
  NoDup (filter_excluded_reviewers reviewers config).
Proof.
  rewrite filter_excluded_reviewers_unfold. apply NoDup_exclude_reviewers.
Qed.









(** The scenarios of the specification for the three sources. *)
Example path_matched_reviewers :
  identify_reviewers_by_changed_files literal_match
    {| options := None; reviewers := None;
       files := Some [("README.md", ["alice"])] |} ["README.md"] []
  = ["alice"].
Proof. reflexivity. Qed.

Example default_reviewers_of_group :
  fetch_default_reviewers
    {| options := None;
       reviewers := Some {| defaults := Some ["backend"]; per_author := None;
                            groups := Some [("backend", ["bob"; "carol"])] |};
       files := None |} []
  = ["bob"; "carol"].
Proof. reflexivity. Qed.

Example other_members_of_the_group :
  fetch_other_group_members "bob"
    {| options := Some {| enable_group_assignment := Some true;
                          ignore_draft := None; ignored_keywords := None;
                          exclude := None; number_of_reviewers := None;
                          load_github_members := None; force_pick := None |};
       reviewers := Some {| defaults := None; per_author := None;
                            groups := Some [("team_x",
                                             ["bob"; "carol"; "dan"])] |};
       files := None |}
  = ["carol"; "dan"].
Proof. reflexivity. Qed.

(** Without the author among [excludes] the sources themselves keep the
    author: the removal is the caller's. *)
Example fetch_default_reviewers_keeps_author :
  let config :=
    {| options := None;
       reviewers := Some {| defaults := Some ["alice"; "bob"];
                            per_author := None; groups := None |};
       files := None |} in
  fetch_default_reviewers config [] = ["alice"; "bob"].
Proof. reflexivity. Qed.

(* ===================================================================== *)
(** * Sampling *)
(* ===================================================================== *)

Section sampling.
Context {A : Type}.
Implicit Types (array : list A) (rnd : nat → nat).

Lemma insert_head_Permutation array j x a :
  array !! j = Some x → x :: <[j := a]> array ≡ₚ a :: array.
Proof.
  revert j. induction array as [|b array IH]; intros [|j] Hj;
    simplify_eq/=.
  - apply perm_swap.
  - rewrite perm_swap, (IH _ Hj). apply perm_swap.
Qed.

(** Exchanging two entries of an array reorders it. *)
Lemma insert_insert_Permutation array i j x y :
  array !! i = Some x → array !! j = Some y →
  <[i := y]> (<[j := x]> array) ≡ₚ array.
Proof.
  revert i j. induction array as [|b array IH]; intros [|i] [|j] Hi Hj;
    simplify_eq/=.
  - done.
  - by apply insert_head_Permutation.
  - by apply insert_head_Permutation.
  - f_equiv. by apply IH.
Qed.

(** The two entries exchanged by an iteration exist: [index] is below
    the size, which is at most the length, and [rand] lies between
    [index] and the last index. *)
Lemma baseRandom_range draw lower upper :
  lower ≤ upper →
  lower ≤ Lodash.baseRandom draw lower upper ≤ upper.
Proof.
  intros Hle. unfold Lodash.baseRandom.
  pose proof (Nat.mod_upper_bound draw (upper - lower + 1)). lia.
Qed.

Lemma shuffle_step_in_range rnd index array :
  index < length array →
  is_Some (array !! Lodash.baseRandom (rnd index) index (length array - 1))
  ∧ is_Some (array !! index).
Proof.
  intros Hlt. split; apply lookup_lt_is_Some_2; [|done].
  pose proof (baseRandom_range (rnd index) index (length array - 1)). lia.
Qed.

Lemma shuffle_step_Permutation rnd index array :
  Lodash.shuffle_step rnd index array ≡ₚ array.
Proof.
  unfold Lodash.shuffle_step.
  destruct (array !! Lodash.baseRandom _ _ _) as [value|] eqn:Hrand;
    [|done].
  destruct (array !! index) as [at_index|] eqn:Hindex; [|done].
  by apply insert_insert_Permutation.
Qed.

Lemma shuffle_loop_Permutation rnd todo index array :
  Lodash.shuffle_loop rnd todo index array ≡ₚ array.
Proof.
  revert index array. induction todo as [|todo IH]; intros index array;
    simpl; [done|].
  by rewrite IH, shuffle_step_Permutation.
Qed.

Lemma baseClamp_le n upper : Lodash.baseClamp n upper ≤ upper.
Proof. unfold Lodash.baseClamp. lia. Qed.

Lemma baseClamp_in_range n upper :
  (0 ≤ n ≤ Z.of_nat upper)%Z → Lodash.baseClamp n upper = Z.to_nat n.
Proof. unfold Lodash.baseClamp. lia. Qed.

Lemma baseClamp_above n upper :
  (Z.of_nat upper ≤ n)%Z → Lodash.baseClamp n upper = upper.
Proof. unfold Lodash.baseClamp. lia. Qed.

Lemma sampleSize_submseteq rnd array n :
  Lodash.sampleSize rnd array n ⊆+ array.
Proof.
  unfold Lodash.sampleSize, Lodash.shuffleSelf.
  etrans; [apply submseteq_take|].
  apply Permutation_submseteq, shuffle_loop_Permutation.
Qed.

Lemma sampleSize_length rnd array n :
  length (Lodash.sampleSize rnd array n)
  = Lodash.baseClamp n (length array).
Proof.
  unfold Lodash.sampleSize, Lodash.shuffleSelf.
  rewrite length_take, shuffle_loop_Permutation.
  pose proof (baseClamp_le n (length array)). lia.
Qed.

Lemma sampleSize_all rnd array n :
  (Z.of_nat (length array) ≤ n)%Z →
  Lodash.sampleSize rnd array n ≡ₚ array.
Proof.
  intros Hn. unfold Lodash.sampleSize, Lodash.shuffleSelf.
  rewrite baseClamp_above by done.
  rewrite take_ge; [apply shuffle_loop_Permutation|].
  by rewrite shuffle_loop_Permutation.
Qed.

Lemma submseteq_NoDup (l k : list A) : l ⊆+ k → NoDup k → NoDup l.
Proof.
  intros [k' Hk]%submseteq_Permutation. rewrite Hk.
  by intros [? _]%NoDup_app.
Qed.

Lemma randomly_pick_reviewers_unfold rnd (reviewers : list A) config :
  randomly_pick_reviewers rnd reviewers config =
  match number_of_reviewers_of config with
  | None => reviewers
  | Some n => Lodash.sampleSize rnd reviewers n
  end.
Proof.
  unfold randomly_pick_reviewers, number_of_reviewers_of.
  rewrite spread_no_options. by destruct (options config).
Qed.

Lemma randomly_pick_reviewers_submseteq rnd (reviewers : list A) config :
  randomly_pick_reviewers rnd reviewers config ⊆+ reviewers.
Proof.
  rewrite randomly_pick_reviewers_unfold.
  destruct (number_of_reviewers_of config); [|done].
  apply sampleSize_submseteq.
Qed.

(** C7, as the code has it.  [randomly_pick_reviewers] returns the list
    unchanged when [number_of_reviewers] is unset.  When it is set to [N]
    the result is taken from pairwise distinct positions of the pool, so
    it is a sub-multiset of the pool and has no duplicate whenever the
    pool has none; it has exactly [N] entries when [0 ≤ N ≤] the pool
    size; and it is a reordering of the entire pool when [N] is at least
    the pool size. *)
Theorem randomly_pick_reviewers_spec rnd (reviewers : list A) config :
  match number_of_reviewers_of config with
  | None => randomly_pick_reviewers rnd reviewers config = reviewers
  | Some N =>
      let picked := randomly_pick_reviewers rnd reviewers config in
      picked ⊆+ reviewers ∧
      (NoDup reviewers → NoDup picked) ∧
      ((0 ≤ N ≤ Z.of_nat (length reviewers))%Z →
       length picked = Z.to_nat N) ∧
      ((Z.of_nat (length reviewers) ≤ N)%Z → picked ≡ₚ reviewers)
  end.
Proof.
  pose proof (randomly_pick_reviewers_submseteq rnd reviewers config)
    as Hsub.
  rewrite randomly_pick_reviewers_unfold in *.
  destruct (number_of_reviewers_of config) as [N|]; [|done].
  split_and!.
  - done.
  - by apply submseteq_NoDup.
  - intros HN. by rewrite sampleSize_length, baseClamp_in_range.
  - apply sampleSize_all.
Qed.
End sampling.

(** An instance of C7: two of three reviewers, and five of three. *)
Lemma randomly_pick_reviewers_spec_witness :
  let pool := ["alice"; "bob"; "carol"] in
  let two := randomly_pick_reviewers (λ i, 2 * i + 1) pool
               (with_options (pick 2) empty_config) in
  let five := randomly_pick_reviewers (λ i, 2 * i + 1) pool
                (with_options (pick 5) empty_config) in
  (NoDup two ∧ length two = 2) ∧ five ≡ₚ pool.
Proof.
  intros pool two five.
  pose proof (randomly_pick_reviewers_spec (λ i, 2 * i + 1) pool
                (with_options (pick 2) empty_config))
    as (_ & Hnodup & Hlen & _).
  pose proof (randomly_pick_reviewers_spec (λ i, 2 * i + 1) pool
                (with_options (pick 5) empty_config))
    as (_ & _ & _ & Hall).
  split_and!.
  - apply Hnodup, (bool_decide_unpack _). by vm_compute.
  - apply Hlen. simpl. lia.
  - apply Hall. simpl. lia.
Defined.

(** C7 as stated fails on a pool that repeats an identifier: the two
    entries picked are the same reviewer. *)
Lemma randomly_pick_reviewers_not_distinct :
  let picked := randomly_pick_reviewers (λ _, 0) ["alice"; "alice"]
                  (with_options (pick 2) empty_config) in
  length picked = 2 ∧ ¬ NoDup picked.
Proof.
  split; [done|]. vm_compute. intros Hnd.
  apply NoDup_cons in Hnd as [Hnotin _]. apply Hnotin. left.
Qed.

(* ===================================================================== *)
(** * The monad *)
(* ===================================================================== *)

Lemma bind_outcome {A B} (m : M A) (k : A → M B) :
  (bind m k).2 =
  match m.2 with
  | Returned a => (k a).2
  | Thrown e => Thrown e
  end.
Proof. destruct m as [w [a|e]]; simpl; [by destruct (k a)|done]. Qed.

Lemma bind_ret_l {A B} (a : A) (k : A → M B) : bind (ret a) k = k a.
Proof. unfold bind, ret. by destruct (k a). Qed.

Lemma returned_outcome {A} (m : M A) (a : A) :
  returned m = Some a ↔ m.2 = Returned a.
Proof.
  unfold returned. destruct m.2; split; intros [=]; by subst.
Qed.

Lemma returned_bind {A B} (m : M A) (k : A → M B) b :
  returned (bind m k) = Some b →
  ∃ a, returned m = Some a ∧ returned (k a) = Some b.
Proof.
  rewrite returned_outcome, bind_outcome.
  destruct m.2 as [a|e] eqn:Hm; [|done].
  intros Hk. exists a. by rewrite !returned_outcome.
Qed.

Lemma promise_all_outcome {A B} (f : A → M B) (g : A → B) (l : list A) :
  (∀ x, (f x).2 = Returned (g x)) →
  (promise_all f l).2 = Returned (g <$> l).
Proof.
  intros Hf. induction l as [|x l IH]; simpl; [done|].
  by rewrite bind_outcome, Hf, bind_outcome, IH.
Qed.

(* ===================================================================== *)
(** * Team lookups *)
(* ===================================================================== *)

Lemma list_team_members_outcome gh team :
  (Github.list_team_members gh team).2 = Returned (roster gh team).
Proof.
  unfold roster, returned, Github.list_team_members.
  destruct (Github.teams_listMembersInOrg _ _ _) as [body|e]; [done|].
  by case_decide.
Qed.

Lemma strings_fmap_Some (l : list string) :
  Github.strings (Some <$> l) = Some l.
Proof.
  unfold Github.strings. apply mapM_Some.
  induction l; constructor; done.
Qed.

Lemma strings_None (l : list (option string)) :
  None ∈ l → Github.strings l = None.
Proof.
  intros Hin. apply mapM_None, Exists_exists. by exists None.
Qed.

(** A lookup that fails otherwise is swallowed: no warning, no throw, and
    the value returned is [undefined]. *)
Lemma list_team_members_swallows gh team e :
  Github.teams_listMembersInOrg gh (Github.owner gh) team = Thrown e →
  status e ≠ Some 404%Z →
  Github.list_team_members gh team = ret None.
Proof.
  intros Hlookup Hstatus. unfold Github.list_team_members.
  rewrite Hlookup. by rewrite decide_False.
Qed.

(* ===================================================================== *)
(** * Live team reconciliation *)
(* ===================================================================== *)

(** Only the presence of [load_github_members] and the truthiness of
    [force_pick] are read from the configuration. *)
Lemma fetch_author_options gh reviewers config author b :
  load_github_members_of config = Some b →
  fetch_author_belongs_to_github_team_members gh reviewers config author =
  fetch_author_belongs_to_github_team_members gh reviewers
    (live_config (force_pick_of config)) author.
Proof.
  unfold load_github_members_of, force_pick_of,
    fetch_author_belongs_to_github_team_members.
  destruct (options config) as [o|]; [simpl|done].
  intros ->. by destruct (force_pick o) as [[]|].
Qed.

Lemma fetch_author_absent gh reviewers config author :
  load_github_members_of config = None →
  fetch_author_belongs_to_github_team_members gh reviewers config author
  = ret reviewers.
Proof.
  unfold load_github_members_of, fetch_author_belongs_to_github_team_members.
  destruct (options config) as [o|]; [simpl|done]. by intros ->.
Qed.

(** The rosters looked up for the team references of [l]. *)
Lemma fetch_author_outcome gh (l : list string) force author :
  let team_members :=
    roster gh <$> (team_slug <$> List.filter is_team l) in
  let individuals := List.filter (λ reviewer, negb (is_team reviewer)) l in
  (fetch_author_belongs_to_github_team_members gh (Some <$> l)
     (live_config force) author).2 =
  match (if negb force then filter_includes author team_members
         else ret team_members).2 with
  | Returned team_members =>
      Returned (Js.uniq ((Some <$> individuals)
                         ++ filter (λ member, member ≠ Some author)
                              (flat team_members)))
  | Thrown e => Thrown e
  end.
Proof.
  intros team_members individuals.
  unfold fetch_author_belongs_to_github_team_members. simpl.
  rewrite strings_fmap_Some. unfold Lodash.partition.
  rewrite bind_outcome.
  rewrite (promise_all_outcome _ (roster gh))
    by apply list_team_members_outcome.
  rewrite bind_outcome. fold is_team. fold team_slug.
  by destruct force.
Qed.

Lemma elem_of_flat (team_members : list (option (list string))) v :
  v ∈ flat team_members ↔
  ∃ members, members ∈ team_members ∧
    match members with
    | Some members => ∃ x, v = Some x ∧ x ∈ members
    | None => v = None
    end.
Proof.
  unfold flat. rewrite list_elem_of_bind.
  split; intros (members & H1 & H2); exists members.
  - split; [done|]. destruct members as [members|].
    + by apply list_elem_of_fmap in H1.
    + by apply list_elem_of_singleton in H1.
  - split; [|done]. destruct members as [members|].
    + by apply list_elem_of_fmap.
    + by apply list_elem_of_singleton.
Qed.

Lemma elem_of_partition_l {A} (p : A → bool) (l : list A) x :
  x ∈ List.filter p l ↔ x ∈ l ∧ p x = true.
Proof. by rewrite !list_elem_of_In, filter_In. Qed.

Lemma elem_of_team_members gh (l : list string) members :
  members ∈ roster gh <$> (team_slug <$> List.filter is_team l) ↔
  ∃ team, team ∈ l ∧ is_team team = true ∧
          roster gh (team_slug team) = members.
Proof.
  rewrite <- list_fmap_compose, list_elem_of_fmap.
  setoid_rewrite elem_of_partition_l. split.
  - intros (team & -> & ? & ?). by exists team.
  - intros (team & ? & ? & <-). by exists team.
Qed.

Lemma filter_includes_rosters author team_members rosters :
  mapM id team_members = Some rosters →
  filter_includes author team_members
  = ret (Some <$> filter (λ members, author ∈ members) rosters).
Proof. unfold filter_includes. by intros ->. Qed.

Lemma filter_includes_undefined author team_members :
  None ∈ team_members →
  filter_includes author team_members = throw TypeError.
Proof.
  intros Hin. unfold filter_includes.
  assert (mapM id team_members = None) as ->; [|done].
  apply mapM_None, Exists_exists. by exists None.
Qed.

Lemma mapM_id_elem_of {A} (l : list (option A)) (k : list A) x :
  mapM id l = Some k → x ∈ k ↔ Some x ∈ l.
Proof.
  intros Hk%mapM_Some. induction Hk as [|? y l k Hy Hk IH]; simpl in *.
  - by rewrite !elem_of_nil.
  - subst. rewrite !elem_of_cons, IH. split.
    + intros [->|?]; auto.
    + intros [[= ->]|?]; auto.
Qed.

Lemma mapM_id_Some_inv {A} (l : list (option A)) (k : list A) :
  mapM id l = Some k → l = Some <$> k.
Proof.
  intros Hk%mapM_Some.
  induction Hk as [|x y l k Hxy Hk IH]; simpl in *; [done|]. by subst.
Qed.

Lemma elem_of_rosters gh (l : list string) rosters members :
  mapM id (roster gh <$> (team_slug <$> List.filter is_team l))
  = Some rosters →
  members ∈ rosters ↔
  ∃ team, team ∈ l ∧ is_team team = true ∧
          roster gh (team_slug team) = Some members.
Proof.
  intros Hmap. rewrite (mapM_id_elem_of _ _ _ Hmap).
  apply elem_of_team_members.
Qed.

Lemma rosters_resolved gh (l : list string) :
  (∀ team, team ∈ l → is_team team = true →
           is_Some (roster gh (team_slug team))) →
  is_Some (mapM id (roster gh <$> (team_slug <$> List.filter is_team l))).
Proof.
  intros Hrosters. apply mapM_is_Some, Forall_forall.
  intros members (team & Hteam & His & <-)%elem_of_team_members.
  by apply Hrosters.
Qed.

Lemma elem_of_flat_rosters (kept : list (list string)) v :
  v ∈ flat (Some <$> kept) ↔
  ∃ x members, v = Some x ∧ members ∈ kept ∧ x ∈ members.
Proof.
  rewrite elem_of_flat. setoid_rewrite list_elem_of_fmap. split.
  - intros (? & (members & -> & Hkept) & x & -> & Hx). by exists x, members.
  - intros (x & members & -> & Hkept & Hx). exists (Some members).
    split; [by exists members | by exists x].
Qed.

(** What the reconciliation returns once every referenced team has a
    roster: the rosters kept are all of them under [force_pick], else those
    that include the author. *)
Lemma fetch_author_resolved gh (l : list string) config author b rosters :
  load_github_members_of config = Some b →
  mapM id (roster gh <$> (team_slug <$> List.filter is_team l))
  = Some rosters →
  returned (fetch_author_belongs_to_github_team_members gh (Some <$> l)
              config author) =
  Some (Js.uniq
          ((Some <$> List.filter (λ reviewer, negb (is_team reviewer)) l)
           ++ filter (λ member, member ≠ Some author)
                (flat (Some <$>
                         (if force_pick_of config then rosters
                          else filter (λ members, author ∈ members)
                                 rosters))))).
Proof.
  intros Hload Hmap.
  rewrite (fetch_author_options _ _ _ _ _ Hload).
  apply returned_outcome. rewrite fetch_author_outcome.
  destruct (force_pick_of config); simpl.
  - by rewrite (mapM_id_Some_inv _ _ Hmap).
  - by rewrite (filter_includes_rosters _ _ _ Hmap).
Qed.

(** C4.  With live reconciliation on and every referenced team resolved to
    a roster, the value returned has no duplicates and consists of the
    candidates that are not team references together with the members,
    other than the author, of the rosters kept: every roster when
    [force_pick] is set, and otherwise exactly the rosters that contain the
    author. *)
Theorem fetch_author_belongs_to_github_team_members_spec
    gh (l : list string) config author b :
  load_github_members_of config = Some b →
  (∀ team, team ∈ l → is_team team = true →
           is_Some (roster gh (team_slug team))) →
  ∃ result,
    returned (fetch_author_belongs_to_github_team_members gh (Some <$> l)
                config author) = Some result ∧
    NoDup result ∧
    ∀ v, v ∈ result ↔
      ∃ x, v = Some x ∧
        ((x ∈ l ∧ is_team x = false) ∨
         (x ≠ author ∧
          ∃ team members,
            team ∈ l ∧ is_team team = true ∧
            roster gh (team_slug team) = Some members ∧
            x ∈ members ∧
            (force_pick_of config = true ∨ author ∈ members))).
Proof.
  intros Hload Hrosters.
  destruct (rosters_resolved gh l Hrosters) as [rosters Hmap].
  eexists. split; [by eapply fetch_author_resolved|].
  split; [apply NoDup_uniq|].
  intros v. rewrite elem_of_uniq, elem_of_app, list_elem_of_fmap,
    list_elem_of_filter, elem_of_flat_rosters.
  setoid_rewrite elem_of_partition_l. setoid_rewrite negb_true_iff.
  split.
  - intros [(x & -> & ? & ?)|[Hne (x & members & -> & Hkept & Hx)]].
    { exists x. auto. }
    exists x. split; [done|]. right. split; [congruence|].
    assert (members ∈ rosters ∧
            (force_pick_of config = true ∨ author ∈ members))
      as [Hmem Hwhy].
    { destruct (force_pick_of config); [auto|].
      apply list_elem_of_filter in Hkept as [? ?]. auto. }
    apply (elem_of_rosters _ _ _ _ Hmap) in Hmem as (team & ? & ? & ?).
    exists team, members. split_and!; auto.
  - intros (x & -> & [[? ?]|(Hne & team & members & ? & ? & Hr & ? & Hwhy)]).
    { left. by exists x. }
    right. split; [congruence|]. exists x, members. split_and!; [done| |done].
    assert (members ∈ rosters) as Hmem.
    { apply (elem_of_rosters _ _ _ _ Hmap). by exists team. }
    destruct (force_pick_of config); [done|].
    apply list_elem_of_filter. by destruct Hwhy.
Qed.

(** An instance of C4, the scenario of the specification: [alice] is not
    on the roster of [infra], so that roster is dropped. *)
Lemma fetch_author_belongs_to_github_team_members_spec_witness :
  let gh := api_of (λ team, if String.eqb team "infra"
                            then Returned [Github.Member "bob"]
                            else Thrown (HttpError 404)) (Returned []) in
  ∃ result,
    returned (fetch_author_belongs_to_github_team_members gh
                (Some <$> ["team:infra"; "alice"]) (live_config false)
                "alice") = Some result ∧
    NoDup result ∧
    ∀ v, v ∈ result ↔
      ∃ x, v = Some x ∧
        ((x ∈ ["team:infra"; "alice"] ∧ is_team x = false) ∨
         (x ≠ "alice" ∧
          ∃ team members,
            team ∈ ["team:infra"; "alice"] ∧ is_team team = true ∧
            roster gh (team_slug team) = Some members ∧
            x ∈ members ∧
            (force_pick_of (live_config false) = true ∨ "alice" ∈ members))).
Proof.
  intros gh.
  apply (fetch_author_belongs_to_github_team_members_spec gh
           ["team:infra"; "alice"] (live_config false) "alice" true).
  - reflexivity.
  - intros team Hteam _.
    apply elem_of_cons in Hteam as [->|Hteam]; [by eexists|].
    apply list_elem_of_singleton in Hteam as ->. by eexists.
Defined.

Example fetch_author_roster_without_author :
  let gh := api_of (λ team, if String.eqb team "infra"
                            then Returned [Github.Member "bob"]
                            else Thrown (HttpError 404)) (Returned []) in
  fetch_author_belongs_to_github_team_members gh
    [Some "team:infra"; Some "alice"] (live_config false) "alice"
  = ret [Some "alice"] ∧
  fetch_author_belongs_to_github_team_members gh
    [Some "team:infra"; Some "alice"] (live_config true) "alice"
  = ret [Some "alice"; Some "bob"].
Proof. done. Qed.

(** C9.  When the team-membership query is rejected with status 404,
    [list_team_members] logs the warning and returns the empty roster, and
    the reconciliation goes on: given candidates whose team references all
    name that team, it returns, and what it returns are the candidates that
    are not team references. *)
Theorem list_team_members_not_found gh team e :
  Github.teams_listMembersInOrg gh (Github.owner gh) team = Thrown e →
  status e = Some 404%Z →
  Github.list_team_members gh team
  = ([Warning "No team was found"], Returned (Some [])) ∧
  ∀ (l : list string) config author b,
    load_github_members_of config = Some b →
    (∀ reference, reference ∈ l → is_team reference = true →
                  team_slug reference = team) →
    ∃ result,
      returned (fetch_author_belongs_to_github_team_members gh (Some <$> l)
                  config author) = Some result ∧
      ∀ v, v ∈ result ↔ ∃ x, v = Some x ∧ x ∈ l ∧ is_team x = false.
Proof.
  intros Hlookup Hstatus.
  assert (Github.list_team_members gh team
          = ([Warning "No team was found"], Returned (Some []))) as Heq.
  { unfold Github.list_team_members. rewrite Hlookup.
    by rewrite decide_True. }
  assert (roster gh team = Some []) as Hroster.
  { unfold roster. by rewrite Heq. }
  split; [done|]. intros l config author b Hload Hrefs.
  assert (∀ reference, reference ∈ l → is_team reference = true →
                       roster gh (team_slug reference) = Some []) as Hempty.
  { intros reference Href His. by rewrite (Hrefs _ Href His). }
  destruct (rosters_resolved gh l) as [rosters Hmap].
  { intros reference Href His. rewrite (Hempty _ Href His). by eexists. }
  eexists. split; [by eapply fetch_author_resolved|].
  intros v. rewrite elem_of_uniq, elem_of_app, list_elem_of_fmap,
    list_elem_of_filter, elem_of_flat_rosters.
  setoid_rewrite elem_of_partition_l. setoid_rewrite negb_true_iff.
  split; [|by left].
  intros [Hv|[_ (x & members & -> & Hkept & Hx)]]; [done|].
  assert (members ∈ rosters) as Hmem.
  { destruct (force_pick_of config); [done|].
    by apply list_elem_of_filter in Hkept as [_ ?]. }
  apply (elem_of_rosters _ _ _ _ Hmap) in Hmem
    as (reference & Href & His & Hr).
  rewrite (Hempty _ Href His) in Hr. injection Hr as <-.
  by apply elem_of_nil in Hx.
Qed.

(** An instance of C9: every team is unknown to the API. *)
Lemma list_team_members_not_found_witness :
  let gh := api_of (λ _, Thrown (HttpError 404)) (Returned []) in
  Github.list_team_members gh "infra"
  = ([Warning "No team was found"], Returned (Some [])) ∧
  ∃ result,
    returned (fetch_author_belongs_to_github_team_members gh
                (Some <$> ["team:infra"; "alice"]) (live_config false)
                "bob") = Some result ∧
    ∀ v, v ∈ result ↔
         ∃ x, v = Some x ∧ x ∈ ["team:infra"; "alice"] ∧ is_team x = false.
Proof.
  intros gh.
  destruct (list_team_members_not_found gh "infra" (HttpError 404))
    as [Hempty Hgoes_on]; [reflexivity..|].
  split; [exact Hempty|].
  apply (Hgoes_on ["team:infra"; "alice"] (live_config false) "bob" true);
    [reflexivity|].
  intros reference Href His.
  apply elem_of_cons in Href as [->|Href]; [reflexivity|].
  apply list_elem_of_singleton in Href as ->. discriminate His.
Defined.

Lemma filter_already_absent gh reviewers config :
  load_github_members_of config = None →
  filter_already_requested_reviewers gh reviewers config = ret reviewers.
Proof.
  unfold load_github_members_of, filter_already_requested_reviewers.
  rewrite spread_no_options.
  destruct (options config) as [o|]; [simpl|done]. by intros ->.
Qed.

Lemma filter_already_present gh reviewers config b :
  load_github_members_of config = Some b →
  filter_already_requested_reviewers gh reviewers config =
  bind (Github.list_requested_reviewers gh) (λ requested_reviewers,
    ret (filter (λ reviewer, reviewer ∉ Some <$> requested_reviewers)
           reviewers)).
Proof.
  unfold load_github_members_of, filter_already_requested_reviewers.
  rewrite spread_no_options.
  destruct (options config) as [o|]; [simpl|done]. by intros ->.
Qed.

(** C10, as the code has it.  A team lookup rejected with a status other
    than 404 is swallowed by [list_team_members], which returns
    [undefined]: the error does not propagate and no empty roster stands
    in for it.  The failure surfaces later: when [force_pick] is not set,
    as the [TypeError] of calling [includes] on the [undefined] roster in
    [fetch_author_belongs_to_github_team_members]; when [force_pick] is
    set, that function returns normally with an [undefined] entry in the
    reviewer list, on which [assign_reviewers] throws. *)
Theorem list_team_members_failure gh team e :
  Github.teams_listMembersInOrg gh (Github.owner gh) team = Thrown e →
  status e ≠ Some 404%Z →
  Github.list_team_members gh team = ret None ∧
  ∀ (l : list string) config author b reference,
    load_github_members_of config = Some b →
    reference ∈ l → is_team reference = true →
    team_slug reference = team →
    if force_pick_of config then
      ∃ result,
        (fetch_author_belongs_to_github_team_members gh (Some <$> l) config
           author).2 = Returned result ∧
        None ∈ result ∧
        ∀ filtered,
          returned (filter_already_requested_reviewers gh result config)
          = Some filtered →
          None ∈ filtered ∧
          (Github.assign_reviewers gh filtered).2 = Thrown TypeError
    else
      (fetch_author_belongs_to_github_team_members gh (Some <$> l) config
         author).2 = Thrown TypeError.
Proof.
  intros Hlookup Hstatus.
  pose proof (list_team_members_swallows _ _ _ Hlookup Hstatus) as Hundef.
  split; [done|].
  intros l config author b reference Hload Href His Hslug.
  assert (None ∈ roster gh <$> (team_slug <$> List.filter is_team l))
    as Hnone.
  { apply elem_of_team_members. exists reference. split_and!; [done..|].
    rewrite Hslug. unfold roster. by rewrite Hundef. }
  rewrite (fetch_author_options _ _ _ _ _ Hload), fetch_author_outcome.
  destruct (force_pick_of config); simpl.
  - eexists. split; [done|].
    assert (None ∈ Js.uniq
              ((Some <$> List.filter (λ r, negb (is_team r)) l)
               ++ filter (λ member, member ≠ Some author)
                    (flat (roster gh <$>
                             (team_slug <$> List.filter is_team l)))))
      as Hresult.
    { rewrite elem_of_uniq, elem_of_app, list_elem_of_filter, elem_of_flat.
      right. split; [done|]. by exists None. }
    split; [done|]. intros filtered.
    rewrite (filter_already_present _ _ _ _ Hload).
    intros (requested & _ & [= <-])%returned_bind.
    assert (None ∈ filter (λ reviewer, reviewer ∉ Some <$> requested)
                     (Js.uniq
                        ((Some <$> List.filter (λ r, negb (is_team r)) l)
                         ++ filter (λ member, member ≠ Some author)
                              (flat (roster gh <$>
                                       (team_slug <$>
                                          List.filter is_team l))))))
      as Hfiltered.
    { apply list_elem_of_filter. split; [|done].
      by intros (? & [=] & _)%list_elem_of_fmap. }
    split; [done|].
    unfold Github.assign_reviewers. by rewrite (strings_None _ Hfiltered).
  - by rewrite (filter_includes_undefined _ _ Hnone).
Qed.

(** An instance of C10: the lookups fail with status 500 and [force_pick]
    is not set. *)
Lemma list_team_members_failure_witness :
  let gh := api_of (λ _, Thrown (HttpError 500)) (Returned []) in
  Github.list_team_members gh "infra" = ret None ∧
  (fetch_author_belongs_to_github_team_members gh
     (Some <$> ["team:infra"; "alice"]) (live_config false) "alice").2
  = Thrown TypeError.
Proof.
  intros gh.
  destruct (list_team_members_failure gh "infra" (HttpError 500))
    as [Hundef Hlater]; [reflexivity | discriminate |].
  split; [exact Hundef|].
  apply (Hlater ["team:infra"; "alice"] (live_config false) "alice" true
           "team:infra"); [reflexivity | left | reflexivity..].
Defined.

(** C10 as stated fails when [force_pick] is set: no list method is called
    on the [undefined] roster, and the reconciliation returns. *)
Lemma list_team_members_failure_returns :
  let gh := api_of (λ _, Thrown (HttpError 500)) (Returned []) in
  Github.list_team_members gh "infra" = ret None ∧
  fetch_author_belongs_to_github_team_members gh
    [Some "team:infra"; Some "alice"] (live_config true) "alice"
  = ret [Some "alice"; None].
Proof. done. Qed.

(* ===================================================================== *)
(** * The already-requested filter and the presence of the option *)
(* ===================================================================== *)

Section uniq_fmap.
Context {A B : Type} `{EqDecision A, EqDecision B}.
Context (f : A → B) `{!Inj (=) (=) f}.

Lemma fold_set_add_fmap (l seen : list A) :
  fold_left Js.set_add (f <$> l) (f <$> seen)
  = f <$> fold_left Js.set_add l seen.
Proof.
  revert seen. induction l as [|x l IH]; intros seen; [done|].
  cbn [fmap list_fmap fold_left]. rewrite <- IH. f_equal.
  unfold Js.set_add. destruct (decide (x ∈ seen)) as [Hin|Hin].
  - by rewrite decide_True by by apply list_elem_of_fmap_2.
  - rewrite decide_False; [by rewrite fmap_app|].
    by intros ?%(list_elem_of_fmap_inj_2 f).
Qed.

Lemma uniq_fmap (l : list A) : Js.uniq (f <$> l) = f <$> Js.uniq l.
Proof. apply (fold_set_add_fmap l []). Qed.
End uniq_fmap.

Lemma flat_fmap_Some (rosters : list (list string)) :
  flat (Some <$> rosters) = Some <$> concat rosters.
Proof.
  unfold flat. induction rosters as [|members rosters IH]; [done|].
  rewrite fmap_cons, bind_cons, IH. simpl. by rewrite fmap_app.
Qed.

Lemma filter_fmap_Some (author : string) (l : list string) :
  filter (λ member, member ≠ Some author) (Some <$> l)
  = Some <$> filter (λ member, member ≠ author) l.
Proof.
  induction l as [|x l IH]; [done|].
  rewrite fmap_cons, !filter_cons, IH.
  destruct (decide (x ≠ author)) as [Hne|Heq].
  - rewrite decide_True; [done | congruence].
  - rewrite decide_False; [done|]. intros Hne. apply Heq. congruence.
Qed.

(** The reconciliation computes what the specification describes, for
    whatever value of [load_github_members] that is present. *)
Lemma fetch_author_reconciled gh (l : list string) config author b rosters :
  load_github_members_of config = Some b →
  Forall2 (λ reference members,
             roster gh (team_slug reference) = Some members)
    (List.filter is_team l) rosters →
  returned (fetch_author_belongs_to_github_team_members gh (Some <$> l)
              config author)
  = Some (Some <$> reconciled rosters (force_pick_of config) author l).
Proof.
  intros Hload Hrosters.
  rewrite (fetch_author_resolved gh l config author b rosters Hload).
  - unfold reconciled.
    rewrite flat_fmap_Some, filter_fmap_Some, <- fmap_app.
    by rewrite (uniq_fmap Some).
  - apply mapM_Some. by rewrite !Forall2_fmap_l.
Qed.

(** C3, as the code has it.  Both asynchronous stages return their input
    unchanged when [load_github_members] is absent from [config.options].
    When it is present, with whatever value, [false] included, the stages
    run: the reconciliation returns the candidates that are not team
    references joined with the members, other than the author, of the
    rosters kept, deduplicated, and the already-requested filter removes
    exactly the reviewers the requested-reviewers lookup returns.  A stage
    that runs may still return a particular input unchanged; absence of
    the option is what makes the stages return every input unchanged. *)
Theorem load_github_members_presence config :
  (load_github_members_of config = None →
   ∀ gh reviewers author,
     fetch_author_belongs_to_github_team_members gh reviewers config author
     = ret reviewers ∧
     filter_already_requested_reviewers gh reviewers config
     = ret reviewers) ∧
  (∀ b, load_github_members_of config = Some b →
     (∀ gh (l : list string) author rosters,
        Forall2 (λ reference members,
                   roster gh (team_slug reference) = Some members)
          (List.filter is_team l) rosters →
        returned (fetch_author_belongs_to_github_team_members gh
                    (Some <$> l) config author)
        = Some (Some <$> reconciled rosters (force_pick_of config) author
                           l)) ∧
     (∀ gh reviewers requested,
        Github.list_requested_reviewers gh = ret requested →
        filter_already_requested_reviewers gh reviewers config
        = ret (filter (λ reviewer, reviewer ∉ Some <$> requested)
                 reviewers))) ∧
  ((∀ gh reviewers author,
      fetch_author_belongs_to_github_team_members gh reviewers config author
      = ret reviewers) ↔
   load_github_members_of config = None) ∧
  ((∀ gh reviewers,
      filter_already_requested_reviewers gh reviewers config
      = ret reviewers) ↔
   load_github_members_of config = None).
Proof.
  split_and!.
  - intros Hload gh reviewers author.
    by rewrite fetch_author_absent, filter_already_absent.
  - intros b Hload. split.
    + intros gh l author rosters.
      by apply (fetch_author_reconciled _ _ _ _ b).
    + intros gh reviewers requested Hrequested.
      rewrite (filter_already_present _ _ _ _ Hload), Hrequested.
      by rewrite bind_ret_l.
  - split; [|intros; by apply fetch_author_absent].
    intros Hid. destruct (load_github_members_of config) as [b|] eqn:Hload;
      [exfalso|done].
    specialize (Hid (api_of (λ _, Returned []) (Returned []))
                  [Some "alice"; Some "alice"] "bob").
    rewrite (fetch_author_options _ _ _ _ _ Hload) in Hid.
    by destruct (force_pick_of config).
  - split; [|intros; by apply filter_already_absent].
    intros Hid. destruct (load_github_members_of config) as [b|] eqn:Hload;
      [exfalso|done].
    specialize (Hid (api_of (λ _, Returned [])
                       (Returned [Github.Member "alice"]))
                  [Some "alice"]).
    by rewrite (filter_already_present _ _ _ _ Hload) in Hid.
Qed.

(** An instance of C3: the option is present with the value [false]; the
    roster of the team referenced includes the author, and [alice] is
    already requested. *)
Lemma load_github_members_presence_witness :
  let gh := api_of (λ _, Returned [Github.Member "dan"; Github.Member "bob"])
              (Returned [Github.Member "alice"]) in
  let config := with_options (live (Some false) None) empty_config in
  returned (fetch_author_belongs_to_github_team_members gh
              (Some <$> ["team:infra"; "alice"; "bob"]) config "dan")
  = Some [Some "alice"; Some "bob"] ∧
  filter_already_requested_reviewers gh [Some "alice"; Some "bob"] config
  = ret [Some "bob"].
Proof.
  intros gh config.
  destruct (load_github_members_presence config) as (_ & Hpresent & _).
  destruct (Hpresent false) as [Hreconcile Hfilter]; [reflexivity|].
  split.
  - apply (Hreconcile gh ["team:infra"; "alice"; "bob"] "dan"
             [["dan"; "bob"]]).
    by repeat constructor.
  - apply (Hfilter gh [Some "alice"; Some "bob"] ["alice"]). reflexivity.
Defined.

(** C3 as stated fails on a particular input: with the option present, a
    duplicate-free list without team references, none of them requested
    already, passes both stages unchanged. *)
Lemma load_github_members_present_unchanged :
  let gh := api_of (λ _, Returned []) (Returned []) in
  let config := with_options (live (Some false) None) empty_config in
  load_github_members_of config = Some false ∧
  fetch_author_belongs_to_github_team_members gh [Some "alice"] config "bob"
  = ret [Some "alice"] ∧
  filter_already_requested_reviewers gh [Some "alice"] config
  = ret [Some "alice"].
Proof. done. Qed.

(* ===================================================================== *)
(** * No duplicate is handed to the assignment *)
(* ===================================================================== *)

Lemma strings_Some_inv (l : list (option string)) (k : list string) :
  Github.strings l = Some k → l = Some <$> k.
Proof. apply mapM_id_Some_inv. Qed.

Lemma fetch_author_NoDup gh reviewers config author result :
  NoDup reviewers →
  returned (fetch_author_belongs_to_github_team_members gh reviewers config
              author) = Some result →
  NoDup result.
Proof.
  intros Hnd. destruct (load_github_members_of config) as [b|] eqn:Hload.
  - rewrite (fetch_author_options _ _ _ _ _ Hload).
    destruct (Github.strings reviewers) as [l|] eqn:Hstrings.
    + apply strings_Some_inv in Hstrings as ->.
      rewrite returned_outcome, fetch_author_outcome.
      destruct (_ : M _).2; [|done]. intros [= <-]. apply NoDup_uniq.
    + unfold fetch_author_belongs_to_github_team_members. simpl.
      by rewrite Hstrings.
  - rewrite (fetch_author_absent _ _ _ _ Hload). by intros [= <-].
Qed.

Lemma filter_already_NoDup gh reviewers config result :
  NoDup reviewers →
  returned (filter_already_requested_reviewers gh reviewers config)
  = Some result →
  NoDup result.
Proof.
  intros Hnd. destruct (load_github_members_of config) as [b|] eqn:Hload.
  - rewrite (filter_already_present _ _ _ _ Hload).
    intros (requested & _ & [= <-])%returned_bind. by apply NoDup_filter.
  - rewrite (filter_already_absent _ _ _ Hload). by intros [= <-].
Qed.

Lemma candidates_sampled_NoDup minimatch rnd config author changed_files :
  NoDup (randomly_pick_reviewers rnd
           (Pipeline.candidate_reviewers minimatch config author
              changed_files) config).
Proof.
  eapply submseteq_NoDup; [apply randomly_pick_reviewers_submseteq|].
  apply NoDup_filter_excluded_reviewers.
Qed.

(** C2.  The sequence handed to the reviewer assignment has no duplicate
    identifier: the global exclusion pass deduplicates its output, either
    asynchronous stage returns a duplicate-free list when given one, and so
    the pipeline ends with a duplicate-free list whenever it reaches the
    assignment, which it does in particular when live reconciliation is
    off. *)
Theorem no_duplicate_reviewers :
  (∀ (reviewers : list string) config,
     NoDup (filter_excluded_reviewers reviewers config)) ∧
  (∀ gh reviewers config author result,
     NoDup reviewers →
     returned (fetch_author_belongs_to_github_team_members gh reviewers
                 config author) = Some result →
     NoDup result) ∧
  (∀ gh reviewers config result,
     NoDup reviewers →
     returned (filter_already_requested_reviewers gh reviewers config)
     = Some result →
     NoDup result) ∧
  (∀ minimatch rnd gh config author changed_files result,
     returned (Pipeline.reviewers_to_assign minimatch rnd gh config author
                 changed_files) = Some result →
     NoDup result) ∧
  (∀ minimatch rnd gh config author changed_files,
     load_github_members_of config = None →
     Pipeline.reviewers_to_assign minimatch rnd gh config author
       changed_files
     = ret (Some <$> randomly_pick_reviewers rnd
              (Pipeline.candidate_reviewers minimatch config author
                 changed_files) config)).
Proof.
  split_and!.
  - apply NoDup_filter_excluded_reviewers.
  - apply fetch_author_NoDup.
  - apply filter_already_NoDup.
  - intros minimatch rnd gh config author changed_files result.
    unfold Pipeline.reviewers_to_assign.
    intros (reconciled & Hreconciled & Hresult)%returned_bind.
    eapply filter_already_NoDup; [|exact Hresult].
    eapply fetch_author_NoDup; [|exact Hreconciled].
    apply (NoDup_fmap_2 Some), candidates_sampled_NoDup.
  - intros minimatch rnd gh config author changed_files Hload.
    unfold Pipeline.reviewers_to_assign.
    rewrite (fetch_author_absent _ _ _ _ Hload), bind_ret_l.
    by apply filter_already_absent.
Qed.

(** An instance of C2: [bob] is a default reviewer, matches a changed file
    and is on the roster of a referenced team; he is handed over once. *)
Lemma no_duplicate_reviewers_witness :
  let gh := api_of (λ _, Returned [Github.Member "alice";
                                   Github.Member "bob"]) (Returned []) in
  let config :=
    {| options := Some (live (Some true) None);
       reviewers := Some {| defaults := Some ["bob"; "team:infra"];
                            per_author := None; groups := None |};
       files := Some [("README.md", ["bob"; "carol"])] |} in
  let handed := [Some "bob"; Some "carol"] in
  returned (Pipeline.reviewers_to_assign literal_match (λ _, 0) gh config
              "alice" ["README.md"]) = Some handed ∧
  NoDup handed.
Proof.
  intros gh config handed.
  assert (returned (Pipeline.reviewers_to_assign literal_match (λ _, 0) gh
                      config "alice" ["README.md"]) = Some handed) as Hrun
    by reflexivity.
  split; [exact Hrun|].
  exact (proj1 (proj2 (proj2 (proj2 no_duplicate_reviewers)))
           literal_match (λ _, 0) gh config "alice" ["README.md"] handed
           Hrun).
Defined.


(* ===================================================================== *)
(** * What the asynchronous stages cannot add *)
(* ===================================================================== *)

Lemma fetch_author_keeps_out gh reviewers config author result :
  Some author ∉ reviewers →
  returned (fetch_author_belongs_to_github_team_members gh reviewers config
              author) = Some result →
  Some author ∉ result.
Proof.
  intros Hnot. destruct (load_github_members_of config) as [b|] eqn:Hload.
  - rewrite (fetch_author_options _ _ _ _ _ Hload).
    destruct (Github.strings reviewers) as [l|] eqn:Hstrings.
    + apply strings_Some_inv in Hstrings as ->.
      rewrite returned_outcome, fetch_author_outcome.
      destruct (_ : M _).2; [|done]. intros [= <-].
      rewrite elem_of_uniq, elem_of_app, list_elem_of_filter.
      intros [Hin|[Hne _]]; [|done]. apply Hnot.
      apply list_elem_of_fmap in Hin as (x & -> & [Hx _]%elem_of_partition_l).
      by apply list_elem_of_fmap_2.
    + unfold fetch_author_belongs_to_github_team_members. simpl.
      by rewrite Hstrings.
  - rewrite (fetch_author_absent _ _ _ _ Hload). by intros [= <-].
Qed.

Lemma filter_already_subseteq gh reviewers config result :
  returned (filter_already_requested_reviewers gh reviewers config)
  = Some result →
  result ⊆ reviewers.
Proof.
  destruct (load_github_members_of config) as [b|] eqn:Hload.
  - rewrite (filter_already_present _ _ _ _ Hload).
    intros (requested & _ & [= <-])%returned_bind v.
    rewrite list_elem_of_filter. tauto.
  - rewrite (filter_already_absent _ _ _ Hload). by intros [= <-].
Qed.

(** The scenario of the specification for the already-requested filter. *)
Example already_requested_is_dropped :
  filter_already_requested_reviewers
    (api_of (λ _, Returned []) (Returned [Github.Member "alice"]))
    [Some "alice"; Some "bob"] (live_config false)
  = ret [Some "bob"].
Proof. reflexivity. Qed.


(* ===================================================================== *)
(** * Further properties of the exclusion filter *)
(* ===================================================================== *)

Section uniq_order.
Context {A : Type} `{EqDecision A}.

Lemma fold_set_add_sublist (l seen : list A) :
  ∃ k, fold_left Js.set_add l seen = seen ++ k ∧ k `sublist_of` l.
Proof.
  revert seen. induction l as [|x l IH]; intros seen; simpl.
  - exists []. by rewrite app_nil_r.
  - unfold Js.set_add at 2. case_decide.
    + destruct (IH seen) as (k & -> & Hk). exists k.
      split; [done|]. by apply sublist_cons.
    + destruct (IH (seen ++ [x])) as (k & -> & Hk). exists (x :: k).
      split; [by rewrite <- app_assoc|]. by apply sublist_skip.
Qed.

Lemma uniq_sublist (l : list A) : Js.uniq l `sublist_of` l.
Proof.
  unfold Js.uniq. by destruct (fold_set_add_sublist l []) as (k & -> & Hk).
Qed.
End uniq_order.

Lemma filter_not_elem_of_nil (l : list string) :
  filter (λ reviewer, reviewer ∉ ([] : list string)) l = l.
Proof.
  induction l as [|x l IH]; [done|].
  rewrite filter_cons_True by apply not_elem_of_nil. by rewrite IH.
Qed.

Lemma exclude_reviewers_nil (reviewers : list string) :
  exclude_reviewers reviewers [] = Js.uniq reviewers.
Proof. apply filter_not_elem_of_nil. Qed.

Lemma exclude_reviewers_filter (reviewers excludes : list string) :
  exclude_reviewers reviewers excludes =
  filter (λ reviewer, reviewer ∉ excludes) (exclude_reviewers reviewers []).
Proof. by rewrite exclude_reviewers_nil. Qed.

Section uniq_first.
Context {A : Type} `{EqDecision A}.

Lemma filter_not_elem_of_app (seen : list A) (y : A) (l : list A) :
  filter (λ z, z ∉ [y]) (filter (λ z, z ∉ seen) l)
  = filter (λ z, z ∉ seen ++ [y]) l.
Proof.
  rewrite list_filter_filter. apply list_filter_iff. intros z.
  rewrite elem_of_app. tauto.
Qed.

Lemma fold_set_add_filter (n : nat) (l seen : list A) :
  length l ≤ n →
  fold_left Js.set_add l seen
  = seen ++ Js.uniq (filter (λ z, z ∉ seen) l).
Proof.
  revert l seen. induction n as [|n IH]; intros [|y l] seen Hlen;
    simpl in Hlen; try lia; try (by rewrite app_nil_r).
  cbn [fold_left]. unfold Js.set_add at 2.
  destruct (decide (y ∈ seen)) as [Hin|Hin].
  - rewrite filter_cons_False by tauto. apply IH. lia.
  - rewrite filter_cons_True by done. rewrite IH by lia.
    unfold Js.uniq at 2. cbn [fold_left]. unfold Js.set_add at 2.
    rewrite decide_False by apply not_elem_of_nil. rewrite app_nil_l.
    rewrite (IH (filter _ l) [y]).
    + by rewrite filter_not_elem_of_app, <- app_assoc.
    + pose proof (length_filter (λ z, z ∉ seen) l). lia.
Qed.

(** Turning a list into a [Set] and back keeps the head and drops its
    later occurrences. *)
Lemma uniq_cons (x : A) (l : list A) :
  Js.uniq (x :: l) = x :: Js.uniq (filter (λ y, y ≠ x) l).
Proof.
  unfold Js.uniq at 1. cbn [fold_left]. unfold Js.set_add at 2.
  rewrite decide_False by apply not_elem_of_nil. rewrite app_nil_l.
  rewrite (fold_set_add_filter (length l)) by done.
  cbn [app]. f_equal. f_equal. apply list_filter_iff. intros y.
  by rewrite list_elem_of_singleton.
Qed.
End uniq_first.

(** X1.  [exclude_reviewers] only removes, and what it keeps stands where
    it first occurred: the result is a subsequence of the input, and on a
    list that starts with [x] it is [x], unless excluded, followed by the
    result for the rest of the list without [x]. *)
Theorem exclude_reviewers_sublist (reviewers excludes : list string) x :
  exclude_reviewers reviewers excludes `sublist_of` reviewers ∧
  exclude_reviewers [] excludes = [] ∧
  exclude_reviewers (x :: reviewers) excludes
  = (if decide (x ∈ excludes) then [] else [x])
    ++ exclude_reviewers (filter (λ y, y ≠ x) reviewers) excludes.
Proof.
  split_and!.
  - unfold exclude_reviewers. etrans; [apply sublist_filter|].
    apply uniq_sublist.
  - done.
  - unfold exclude_reviewers. rewrite uniq_cons, filter_cons.
    destruct (decide (x ∈ excludes)) as [Hin|Hin].
    + by rewrite decide_False by tauto.
    + by rewrite decide_True by done.
Qed.

(** The later occurrence of [alice] goes, the first one stays in place. *)
Example exclude_reviewers_first_occurrence :
  exclude_reviewers ["alice"; "bob"; "alice"; "carol"] ["carol"]
  = ["alice"; "bob"].
Proof. reflexivity. Qed.

Lemma exclude_reviewers_fixed (reviewers excludes : list string) :
  NoDup reviewers →
  (∀ reviewer, reviewer ∈ reviewers → reviewer ∉ excludes) →
  exclude_reviewers reviewers excludes = reviewers.
Proof.
  intros Hnd Hnone. unfold exclude_reviewers. rewrite uniq_NoDup by done.
  induction reviewers as [|x l IH]; [done|].
  rewrite filter_cons_True by (apply Hnone; left).
  f_equal. apply IH.
  - by apply NoDup_cons in Hnd as [_ ?].
  - intros y Hy. apply Hnone. by right.
Qed.

(** X2.  [exclude_reviewers] is idempotent, and so is the global exclusion
    pass: filtering an already filtered list again, with the same
    exclusions, changes nothing. *)
Theorem exclude_reviewers_idempotent (reviewers excludes : list string)
    config :
  exclude_reviewers (exclude_reviewers reviewers excludes) excludes
  = exclude_reviewers reviewers excludes ∧
  filter_excluded_reviewers (filter_excluded_reviewers reviewers config)
    config
  = filter_excluded_reviewers reviewers config.
Proof.
  assert (∀ l ex, exclude_reviewers (exclude_reviewers l ex) ex
                  = exclude_reviewers l ex) as Hidem.
  { intros l ex. apply exclude_reviewers_fixed.
    - apply NoDup_exclude_reviewers.
    - intros x Hx. by apply elem_of_exclude_reviewers in Hx as [_ ?]. }
  split; [apply Hidem|].
  rewrite !filter_excluded_reviewers_unfold. apply Hidem.
Qed.

(** X3.  The [excludes] argument of the two sources that take one only
    filters what the source yields without it: calling with [excludes] is
    calling with the default [[]] and dropping the excluded entries. *)
Theorem excludes_only_filter minimatch config
    (changed_files excludes : list string) :
  fetch_default_reviewers config excludes
  = filter (λ reviewer, reviewer ∉ excludes)
      (fetch_default_reviewers config []) ∧
  identify_reviewers_by_changed_files minimatch config changed_files excludes
  = filter (λ reviewer, reviewer ∉ excludes)
      (identify_reviewers_by_changed_files minimatch config changed_files
         []).
Proof.
  unfold fetch_default_reviewers, identify_reviewers_by_changed_files.
  split.
  - destruct (reviewers config ≫= defaults); [|done].
    apply exclude_reviewers_filter.
  - destruct (files config); [|done]. apply exclude_reviewers_filter.
Qed.


(* ===================================================================== *)
(** * What the candidate sources yield *)
(* ===================================================================== *)

Lemma get_distinct_keys {V} (o : Js.obj V) (k : string) (v : V) :
  distinct_keys o → (k, v) ∈ o → Js.get o k = Some v.
Proof.
  unfold distinct_keys, Js.keys.
  induction o as [|[k' v'] o IH]; simpl; intros Hnd Hin.
  - by apply elem_of_nil in Hin.
  - apply NoDup_cons in Hnd as [Hk' Hnd].
    apply elem_of_cons in Hin as [[= <- <-]|Hin]; [by rewrite decide_True|].
    rewrite decide_False; [by apply IH|].
    intros ->. apply Hk'. by apply (list_elem_of_fmap_2 fst) in Hin.
Qed.

Lemma elem_of_matching_reviewers (minimatch : string → string → bool)
    (patterns : Js.obj (list string)) (changed_files : list string) r :
  r ∈ Js.flatMap (λ '(glob_pattern, listed),
        if existsb (λ changed_file, minimatch changed_file glob_pattern)
                   changed_files
        then listed else []) (Js.entries patterns) ↔
  ∃ glob_pattern listed,
    (glob_pattern, listed) ∈ patterns ∧
    (∃ changed_file, changed_file ∈ changed_files ∧
                     minimatch changed_file glob_pattern = true) ∧
    r ∈ listed.
Proof.
  unfold Js.flatMap, Js.entries. rewrite list_elem_of_bind. split.
  - intros ([pattern rs] & Hr & Hentry). exists pattern, rs.
    destruct (existsb _ changed_files) eqn:Hmatch;
      [|by apply elem_of_nil in Hr].
    by apply existsb_elem_of in Hmatch.
  - intros (pattern & rs & Hentry & Hmatch & Hr). exists (pattern, rs).
    split; [|done]. apply existsb_elem_of in Hmatch. by rewrite Hmatch.
Qed.

Lemma elem_of_changed_files_reviewers minimatch config
    (changed_files excludes : list string) x :
  x ∈ identify_reviewers_by_changed_files minimatch config changed_files
        excludes ↔
  (x ∉ excludes) ∧
  (∃ patterns glob_pattern listed,
     files config = Some patterns ∧ (glob_pattern, listed) ∈ patterns ∧
     (∃ changed_file, changed_file ∈ changed_files ∧
                      minimatch changed_file glob_pattern = true) ∧
     x ∈ replace_groups_with_individuals listed config).
Proof.
  unfold identify_reviewers_by_changed_files.
  destruct (files config) as [patterns|]; last first.
  { split; [by intros ?%elem_of_nil | by intros (_ & ? & ? & ? & ? & _)]. }
  rewrite elem_of_exclude_reviewers. split.
  - intros [(r & Hr & Hx)%elem_of_replace_groups Hnot].
    apply elem_of_matching_reviewers in Hr
      as (pattern & rs & Hentry & Hmatch & Hr).
    split; [done|]. exists patterns, pattern, rs. split_and!; [done..|].
    apply elem_of_replace_groups. by exists r.
  - intros (Hnot & ? & pattern & rs & [= <-] & Hentry & Hmatch & Hx).
    split; [|done].
    apply elem_of_replace_groups in Hx as (r & Hr & Hx).
    apply elem_of_replace_groups. exists r. split; [|done].
    apply elem_of_matching_reviewers. by exists pattern, rs.
Qed.

(** X4.  The path-matched reviewers are, without duplicates, exactly the
    expansions of the reviewer lists of those patterns that match at least
    one changed file, minus the excluded identifiers; without a [files]
    section there are none. *)
Theorem identify_reviewers_by_changed_files_spec minimatch config
    (changed_files excludes : list string) :
  NoDup (identify_reviewers_by_changed_files minimatch config changed_files
           excludes) ∧
  (files config = None →
   identify_reviewers_by_changed_files minimatch config changed_files
     excludes = []) ∧
  ∀ x,
    x ∈ identify_reviewers_by_changed_files minimatch config changed_files
          excludes ↔
    (x ∉ excludes) ∧
    (∃ patterns glob_pattern listed,
       files config = Some patterns ∧ (glob_pattern, listed) ∈ patterns ∧
       (∃ changed_file, changed_file ∈ changed_files ∧
                        minimatch changed_file glob_pattern = true) ∧
       x ∈ replace_groups_with_individuals listed config).
Proof.
  split_and!.
  - unfold identify_reviewers_by_changed_files.
    destruct (files config); [apply NoDup_exclude_reviewers|].
    apply NoDup_nil_2.
  - unfold identify_reviewers_by_changed_files. by intros ->.
  - apply elem_of_changed_files_reviewers.
Qed.

(** An instance of X4 without a [files] section. *)
Lemma identify_reviewers_by_changed_files_spec_witness :
  identify_reviewers_by_changed_files literal_match empty_config
    ["README.md"] [] = [].
Proof.
  apply (identify_reviewers_by_changed_files_spec literal_match empty_config
           ["README.md"] []).
  reflexivity.
Defined.

(** X5.  Path matching is monotone in the changed files: a pull request
    that changes more files gets at least the same path-matched reviewers,
    and one that changes no file gets none. *)
Theorem identify_reviewers_by_changed_files_mono minimatch config
    (changed_files changed_files' excludes : list string) :
  (changed_files ⊆ changed_files' →
   identify_reviewers_by_changed_files minimatch config changed_files
     excludes
   ⊆ identify_reviewers_by_changed_files minimatch config changed_files'
       excludes) ∧
  identify_reviewers_by_changed_files minimatch config [] excludes = [].
Proof.
  split.
  - intros Hsub x. rewrite !elem_of_changed_files_reviewers.
    intros (Hnot & files & pattern & rs & Hfiles & Hentry
            & (f & Hf & Hmatch) & Hx).
    split; [done|]. exists files, pattern, rs. split_and!; [done..| |done].
    exists f. split; [by apply Hsub | done].
  - apply elem_of_nil_inv. intros x.
    rewrite elem_of_changed_files_reviewers.
    intros (_ & _ & _ & _ & _ & _ & (f & Hf & _) & _).
    by apply elem_of_nil in Hf.
Qed.

(** An instance of X5: a second changed file adds the reviewers of its
    pattern. *)
Lemma identify_reviewers_by_changed_files_mono_witness :
  let config :=
    {| options := None; reviewers := None;
       files := Some [("README.md", ["alice"]); ("Makefile", ["bob"])] |} in
  identify_reviewers_by_changed_files literal_match config ["README.md"] []
  ⊆ identify_reviewers_by_changed_files literal_match config
      ["README.md"; "Makefile"] [].
Proof.
  intros config.
  apply (identify_reviewers_by_changed_files_mono literal_match config
           ["README.md"] ["README.md"; "Makefile"] []).
  intros x Hx%list_elem_of_singleton. subst. left.
Defined.

Lemma elem_of_replace_groups_singleton key config x :
  x ∈ replace_groups_with_individuals [key] config ↔
  match Js.get (groups_of config) key with
  | Some members => x ∈ members
  | None => x = key
  end.
Proof.
  rewrite elem_of_replace_groups. split.
  - by intros (r & ->%list_elem_of_singleton & Hx).
  - intros Hx. exists key. split; [left | done].
Qed.

(** X6.  The author-matched reviewers are the expansions, minus the
    author, of the reviewer lists of every [per_author] key that is the
    author's login or names a group the author is a member of; without a
    [per_author] section there are none. *)
Theorem identify_reviewers_by_author_spec config author :
  (reviewers config ≫= per_author = None →
   identify_reviewers_by_author config author = []) ∧
  ∀ x,
    x ∈ identify_reviewers_by_author config author ↔
    x ≠ author ∧
    (∃ rules key,
       reviewers config ≫= per_author = Some rules ∧
       key ∈ Js.keys rules ∧
       (key = author ∨
        ∃ members, Js.get (groups_of config) key = Some members ∧
                   author ∈ members) ∧
       x ∈ replace_groups_with_individuals
             (default [] (Js.get rules key)) config).
Proof.
  unfold identify_reviewers_by_author. split; [by intros ->|]. intros x.
  destruct (reviewers config ≫= per_author) as [rules|]; last first.
  { split; [by intros ?%elem_of_nil | by intros (_ & ? & ? & ? & _)]. }
  rewrite list_elem_of_filter. unfold Js.flatMap.
  rewrite list_elem_of_bind. setoid_rewrite list_elem_of_filter.
  setoid_rewrite elem_of_replace_groups_singleton.
  split.
  - intros [Hne (key & Hx & Hmatch & Hkey)]. split; [done|].
    exists rules, key. split_and!; [done..| |done].
    destruct Hmatch as [->|Hmatch]; [by left|].
    destruct (Js.get (groups_of config) key) as [members|];
      [right; by exists members | by left].
  - intros [Hne (? & key & [= <-] & Hkey & Hmatch & Hx)]. split; [done|].
    exists key. split; [done|]. split; [|done].
    destruct Hmatch as [->|(members & Hget & Hauthor)]; [by left|].
    right. by rewrite Hget.
Qed.

(** An instance of X6 without a [per_author] section. *)
Lemma identify_reviewers_by_author_spec_witness :
  identify_reviewers_by_author empty_config "alice" = [].
Proof.
  apply (identify_reviewers_by_author_spec empty_config "alice").
  reflexivity.
Defined.

Example identify_reviewers_by_author_group_key :
  identify_reviewers_by_author
    {| options := None;
       reviewers := Some {| defaults := None;
                            per_author := Some [("backend", ["alice"; "bob"]);
                                                ("carol", ["dan"])];
                            groups := Some [("backend", ["bob"; "carol"])] |};
       files := None |} "carol"
  = ["alice"; "bob"; "dan"].
Proof. reflexivity. Qed.


(* ===================================================================== *)
(** * The group fan-out *)
(* ===================================================================== *)

Lemma truthy_string_ne (s : string) : Js.truthy_string s = true ↔ s ≠ "".
Proof. by destruct s. Qed.

Lemma fetch_other_group_members_disabled author config :
  group_assignment_of config = false →
  fetch_other_group_members author config = [].
Proof.
  unfold group_assignment_of, fetch_other_group_members.
  destruct (options config) as [o|]; [simpl|done].
  by destruct (enable_group_assignment o) as [[]|].
Qed.

Lemma fetch_other_group_members_enabled author config :
  group_assignment_of config = true →
  fetch_other_group_members author config =
  Js.uniq
    (filter (λ group_member, group_member ≠ author)
       (Js.flatMap
          (λ group_name, default [] (Js.get (groups_of config) group_name))
          (omap (λ group_name, group_name)
             (filter
                (λ group_name, Js.truthy_string (default "" group_name))
                ((λ '(group_name, members),
                    if decide (author ∈ members) then Some group_name
                    else None) <$> Js.entries (groups_of config)))))).
Proof.
  unfold group_assignment_of, fetch_other_group_members.
  destruct (options config) as [o|]; [simpl|done].
  by destruct (enable_group_assignment o) as [[]|].
Qed.

(** The names of the groups the author belongs to, as the function
    collects them. *)
Lemma elem_of_belonging_group_names (groups : Js.obj (list string))
    (author name : string) :
  name ∈ omap (λ group_name, group_name)
           (filter (λ group_name, Js.truthy_string (default "" group_name))
              ((λ '(group_name, members),
                  if decide (author ∈ members) then Some group_name
                  else None) <$> Js.entries groups)) ↔
  name ≠ "" ∧ ∃ members, (name, members) ∈ groups ∧ author ∈ members.
Proof.
  rewrite list_elem_of_omap. unfold Js.entries. split.
  - intros (o & Ho & ->). apply list_elem_of_filter in Ho as [Htruthy Ho].
    apply list_elem_of_fmap in Ho as ([name' members] & Heq & Hentry).
    destruct (decide (author ∈ members)); [|done].
    injection Heq as <-.
    split; [by apply truthy_string_ne, Is_true_true|]. by exists members.
  - intros [Hne (members & Hentry & Hauthor)]. exists (Some name).
    split; [|done]. apply list_elem_of_filter.
    split; [by apply Is_true_true, truthy_string_ne|].
    apply list_elem_of_fmap. exists (name, members).
    by rewrite decide_True.
Qed.

Lemma elem_of_fetch_other_group_members author config x :
  group_assignment_of config = true →
  distinct_keys (groups_of config) →
  x ∈ fetch_other_group_members author config ↔
  x ≠ author ∧
  ∃ name members,
    name ≠ "" ∧ (name, members) ∈ groups_of config ∧
    author ∈ members ∧ x ∈ members.
Proof.
  intros Henabled Hkeys.
  rewrite (fetch_other_group_members_enabled _ _ Henabled).
  rewrite elem_of_uniq, list_elem_of_filter. unfold Js.flatMap.
  rewrite list_elem_of_bind. split.
  - intros [Hne (name & Hx & Hname)]. split; [done|].
    apply elem_of_belonging_group_names in Hname
      as [Hname (members & Hentry & Hauthor)].
    rewrite (get_distinct_keys _ _ _ Hkeys Hentry) in Hx.
    by exists name, members.
  - intros [Hne (name & members & Hname & Hentry & Hauthor & Hx)].
    split; [done|]. exists name. split.
    + by rewrite (get_distinct_keys _ _ _ Hkeys Hentry).
    + apply elem_of_belonging_group_names. split; [done|]. by exists members.
Qed.

(** X7.  With group assignment enabled, the fan-out yields, without
    duplicates, exactly the members other than the author of the groups
    with a non-empty name that the author belongs to; with the option
    absent or false it yields nothing. *)
Theorem fetch_other_group_members_spec author config :
  (group_assignment_of config = false →
   fetch_other_group_members author config = []) ∧
  (group_assignment_of config = true →
   distinct_keys (groups_of config) →
   NoDup (fetch_other_group_members author config) ∧
   ∀ x, x ∈ fetch_other_group_members author config ↔
        x ≠ author ∧
        ∃ name members,
          name ≠ "" ∧ (name, members) ∈ groups_of config ∧
          author ∈ members ∧ x ∈ members).
Proof.
  split; [apply fetch_other_group_members_disabled|].
  intros Henabled Hkeys. split.
  - rewrite (fetch_other_group_members_enabled _ _ Henabled).
    apply NoDup_uniq.
  - intros x. by apply elem_of_fetch_other_group_members.
Qed.

(** An instance of X7: two groups of [bob], and the option left out. *)
Lemma fetch_other_group_members_spec_witness :
  let config :=
    {| options := Some {| enable_group_assignment := Some true;
                          ignore_draft := None; ignored_keywords := None;
                          exclude := None; number_of_reviewers := None;
                          load_github_members := None; force_pick := None |};
       reviewers := Some {| defaults := None; per_author := None;
                            groups := Some [("api", ["bob"; "carol"]);
                                            ("web", ["dan"; "bob"; "carol"]);
                                            ("ops", ["erin"])] |};
       files := None |} in
  fetch_other_group_members "bob" empty_config = [] ∧
  NoDup (fetch_other_group_members "bob" config) ∧
  ("dan" ∈ fetch_other_group_members "bob" config ↔
   "dan" ≠ "bob" ∧
   ∃ name members,
     name ≠ "" ∧ (name, members) ∈ groups_of config ∧
     "bob" ∈ members ∧ "dan" ∈ members).
Proof.
  intros config.
  destruct (fetch_other_group_members_spec "bob" empty_config)
    as [Hoff _].
  destruct (fetch_other_group_members_spec "bob" config) as [_ Hon].
  destruct Hon as [Hnodup Hin]; [reflexivity| |].
  { apply (bool_decide_unpack _). by vm_compute. }
  split; [by apply Hoff|]. split; [exact Hnodup | apply Hin].
Defined.

(** X8.  Being a peer is symmetric: if the fan-out for one author yields
    a reviewer, the fan-out for that reviewer yields the author. *)
Theorem fetch_other_group_members_symmetric author peer config :
  distinct_keys (groups_of config) →
  peer ∈ fetch_other_group_members author config →
  author ∈ fetch_other_group_members peer config.
Proof.
  intros Hkeys Hpeer.
  destruct (group_assignment_of config) eqn:Henabled; last first.
  { rewrite (fetch_other_group_members_disabled _ _ Henabled) in Hpeer.
    by apply elem_of_nil in Hpeer. }
  apply (elem_of_fetch_other_group_members _ _ _ Henabled Hkeys) in Hpeer
    as (Hne & name & members & Hname & Hentry & Hauthor & Hpeer).
  apply (elem_of_fetch_other_group_members _ _ _ Henabled Hkeys).
  split; [done|]. by exists name, members.
Qed.

(** An instance of X8. *)
Lemma fetch_other_group_members_symmetric_witness :
  let config :=
    {| options := Some {| enable_group_assignment := Some true;
                          ignore_draft := None; ignored_keywords := None;
                          exclude := None; number_of_reviewers := None;
                          load_github_members := None; force_pick := None |};
       reviewers := Some {| defaults := None; per_author := None;
                            groups := Some [("api", ["bob"; "carol"])] |};
       files := None |} in
  "bob" ∈ fetch_other_group_members "carol" config.
Proof.
  intros config.
  apply (fetch_other_group_members_symmetric "bob" "carol" config).
  - apply (bool_decide_unpack _). by vm_compute.
  - vm_compute. left.
Defined.

(** X9.  A group whose name is the empty string is ignored by the fan-out:
    an author who belongs to no group with a non-empty name gets no peer,
    even with group assignment enabled. *)
Theorem fetch_other_group_members_unnamed author config :
  (∀ name members,
     (name, members) ∈ groups_of config → author ∈ members → name = "") →
  fetch_other_group_members author config = [].
Proof.
  intros Hunnamed.
  destruct (group_assignment_of config) eqn:Henabled;
    [|by apply fetch_other_group_members_disabled].
  rewrite (fetch_other_group_members_enabled _ _ Henabled).
  assert (omap (λ group_name, group_name)
            (filter (λ group_name, Js.truthy_string (default "" group_name))
               ((λ '(group_name, members),
                   if decide (author ∈ members) then Some group_name
                   else None) <$> Js.entries (groups_of config))) = [])
    as ->; [|done].
  apply elem_of_nil_inv. intros name.
  rewrite elem_of_belonging_group_names.
  intros [Hne (members & Hentry & Hauthor)].
  by apply Hne, (Hunnamed name members).
Qed.

(** An instance of X9: the only group of [bob] has the empty name. *)
Lemma fetch_other_group_members_unnamed_witness :
  fetch_other_group_members "bob"
    {| options := Some {| enable_group_assignment := Some true;
                          ignore_draft := None; ignored_keywords := None;
                          exclude := None; number_of_reviewers := None;
                          load_github_members := None; force_pick := None |};
       reviewers := Some {| defaults := None; per_author := None;
                            groups := Some [("", ["bob"; "carol"]);
                                            ("ops", ["erin"])] |};
       files := None |}
  = [].
Proof.
  apply fetch_other_group_members_unnamed.
  intros name members Hentry Hbob.
  apply elem_of_cons in Hentry as [[= -> ->]|Hentry]; [done|].
  apply list_elem_of_singleton in Hentry. injection Hentry as -> ->.
  apply list_elem_of_singleton in Hbob. discriminate Hbob.
Defined.


(* ===================================================================== *)
(** * Group names after expansion *)
(* ===================================================================== *)

(** X10.  Where no member of a group names a group, no identifier of an
    expanded list names a group: every group name given to
    [replace_groups_with_individuals] is gone from its output. *)
Theorem replace_groups_no_group_left (reviewers : list string) config x :
  flat_groups config →
  x ∈ replace_groups_with_individuals reviewers config →
  x ∉ Js.keys (groups_of config).
Proof.
  intros Hflat (r & Hr & Hx)%elem_of_replace_groups.
  destruct (Js.get (groups_of config) r) as [members|] eqn:Hget.
  - eapply Hflat; [by apply get_Some_elem_of|done].
  - subst x. by apply get_None_keys.
Qed.

(** An instance of X10. *)
Lemma replace_groups_no_group_left_witness :
  let config :=
    {| options := None;
       reviewers := Some {| defaults := None; per_author := None;
                            groups := Some [("backend", ["bob"; "carol"])] |};
       files := None |} in
  "bob" ∉ Js.keys (groups_of config).
Proof.
  intros config.
  apply (replace_groups_no_group_left ["alice"; "backend"] config "bob").
  - intros group members member Hgroup Hmember Hkey.
    apply list_elem_of_singleton in Hgroup. injection Hgroup as -> ->.
    apply list_elem_of_singleton in Hkey. subst member.
    apply elem_of_cons in Hmember as [Hm|Hm%list_elem_of_singleton];
      discriminate Hm.
  - vm_compute. right. left.
Defined.

(** X11.  Expansion works identifier by identifier: expanding a
    concatenation is concatenating the expansions, and a configuration
    without a [groups] section expands every list to itself. *)
Theorem replace_groups_compose (l1 l2 : list string) config :
  replace_groups_with_individuals (l1 ++ l2) config
  = replace_groups_with_individuals l1 config
    ++ replace_groups_with_individuals l2 config ∧
  (reviewers config ≫= groups = None →
   replace_groups_with_individuals l1 config = l1).
Proof.
  split; [apply replace_groups_app|].
  intros Hnone. apply replace_groups_individuals.
  intros reviewer _. unfold groups_of, Js.obj in *. rewrite Hnone.
  apply not_elem_of_nil.
Qed.

(** An instance of X11 without a [groups] section. *)
Lemma replace_groups_compose_witness :
  replace_groups_with_individuals ["alice"; "backend"] empty_config
  = ["alice"; "backend"].
Proof.
  apply (replace_groups_compose ["alice"; "backend"] [] empty_config).
  reflexivity.
Defined.

(* ===================================================================== *)
(** * Edges of the eligibility gate *)
(* ===================================================================== *)

Lemma includes_empty (s : string) : Js.includes s "" = true.
Proof. by destruct s. Qed.

(** X12.  An empty string among the ignored keywords suppresses every
    review request: each title contains it. *)
Theorem should_request_review_empty_keyword title is_draft config :
  "" ∈ effective_ignored_keywords config →
  should_request_review title is_draft config = false.
Proof.
  intros Hempty. rewrite should_request_review_unfold.
  destruct (effective_ignore_draft config && is_draft); [done|].
  apply negb_false_iff, existsb_elem_of. exists "".
  split; [done | apply includes_empty].
Qed.

(** An instance of X12. *)
Lemma should_request_review_empty_keyword_witness :
  should_request_review "Add cache" false
    {| options := Some {| enable_group_assignment := None;
                          ignore_draft := None;
                          ignored_keywords := Some ["WIP"; ""];
                          exclude := None; number_of_reviewers := None;
                          load_github_members := None; force_pick := None |};
       reviewers := None; files := None |}
  = false.
Proof.
  apply should_request_review_empty_keyword. right. left.
Defined.

(** X13.  The draft flag can only withhold a request: a draft that is
    eligible stays eligible once it is no longer a draft, and with
    [ignore_draft] false the flag makes no difference at all. *)
Theorem should_request_review_draft title config :
  (should_request_review title true config = true →
   should_request_review title false config = true) ∧
  (effective_ignore_draft config = false →
   should_request_review title true config
   = should_request_review title false config).
Proof.
  rewrite !should_request_review_unfold.
  destruct (effective_ignore_draft config); simpl; split; done.
Qed.

(** An instance of X13 with [ignore_draft] false. *)
Lemma should_request_review_draft_witness :
  let config :=
    {| options := Some {| enable_group_assignment := None;
                          ignore_draft := Some false;
                          ignored_keywords := None;
                          exclude := None; number_of_reviewers := None;
                          load_github_members := None; force_pick := None |};
       reviewers := None; files := None |} in
  should_request_review "Add cache" false config = true ∧
  should_request_review "WIP DO NOT REVIEW" true config
  = should_request_review "WIP DO NOT REVIEW" false config.
Proof.
  intros config. split.
  - apply (proj1 (should_request_review_draft "Add cache" config)).
    reflexivity.
  - apply (proj2 (should_request_review_draft "WIP DO NOT REVIEW" config)).
    reflexivity.
Defined.

Lemma append_assoc (s t u : string) : (s +:+ t) +:+ u = s +:+ t +:+ u.
Proof.
  induction s as [|c s IH]; [done|]. by rewrite !append_String, IH.
Qed.

Lemma substring_of_trans (k s t : string) :
  substring_of k s → substring_of s t → substring_of k t.
Proof.
  intros (b & a & ->) (b' & a' & ->).
  exists (b' +:+ b), (a +:+ a'). by rewrite !append_assoc.
Qed.

(** X14.  Text added to a title can only withhold a request: if a title is
    eligible, so is every title it contains, for the same draft flag. *)
Theorem should_request_review_substring title title' is_draft config :
  substring_of title title' →
  should_request_review title' is_draft config = true →
  should_request_review title is_draft config = true.
Proof.
  intros Hsub. rewrite !should_request_review_unfold.
  destruct (effective_ignore_draft config && is_draft); [done|].
  rewrite !negb_true_iff. intros Hnone.
  destruct (existsb _ _) eqn:Hsome in |- *; [|done].
  apply existsb_elem_of in Hsome as (keyword & Hkeyword & Hin).
  rewrite <- Hnone. symmetry. apply existsb_elem_of. exists keyword.
  split; [done|]. apply includes_spec.
  eapply substring_of_trans; [by apply includes_spec | done].
Qed.

(** An instance of X14. *)
Lemma should_request_review_substring_witness :
  should_request_review "cache" false empty_config = true.
Proof.
  apply (should_request_review_substring "cache" "Add cache layer" false
           empty_config).
  - by exists "Add ", " layer".
  - reflexivity.
Defined.

(* ===================================================================== *)
(** * Edges of the sampling *)
(* ===================================================================== *)

(** X15.  A [number_of_reviewers] of zero or below selects nobody: the
    requested size is clamped to zero, whatever the pool and the random
    draws. *)
Theorem randomly_pick_reviewers_none {A} rnd (reviewers : list A) config N :
  number_of_reviewers_of config = Some N → (N ≤ 0)%Z →
  randomly_pick_reviewers rnd reviewers config = [].
Proof.
  intros Hset Hle. rewrite randomly_pick_reviewers_unfold, Hset.
  unfold Lodash.sampleSize, Lodash.shuffleSelf.
  assert (Lodash.baseClamp N (length reviewers) = 0) as ->; [|done].
  unfold Lodash.baseClamp. lia.
Qed.

(** An instance of X15. *)
Lemma randomly_pick_reviewers_none_witness :
  randomly_pick_reviewers (λ i, i) ["alice"; "bob"]
    (with_options (pick (-1)) empty_config) = [].
Proof.
  apply (randomly_pick_reviewers_none _ _ _ (-1)%Z); [reflexivity | lia].
Defined.


(* ===================================================================== *)
(** * Further properties of the live reconciliation *)
(* ===================================================================== *)

Lemma bind_warnings {A B} (m : M A) (k : A → M B) :
  (bind m k).1 =
  m.1 ++ match m.2 with
         | Returned a => (k a).1
         | Thrown _ => []
         end.
Proof.
  destruct m as [w [a|e]]; simpl; [by destruct (k a)|].
  by rewrite app_nil_r.
Qed.

Lemma promise_all_warnings {A B} (f : A → M B) (g : A → B) (l : list A) :
  (∀ x, (f x).2 = Returned (g x)) →
  (promise_all f l).1 = l ≫= (λ x, (f x).1).
Proof.
  intros Hf. induction l as [|x l IH]; simpl; [done|].
  rewrite bind_warnings, Hf, bind_warnings.
  rewrite (promise_all_outcome f g l Hf), IH. simpl.
  by rewrite app_nil_r.
Qed.

Lemma list_team_members_warnings gh team :
  (Github.list_team_members gh team).1 =
  if not_found gh team then [Warning "No team was found"] else [].
Proof.
  unfold Github.list_team_members, not_found.
  destruct (Github.teams_listMembersInOrg _ _ _) as [body|e]; [done|].
  case_decide.
  - by rewrite bool_decide_eq_true_2.
  - by rewrite bool_decide_eq_false_2.
Qed.

(** X16.  [list_team_members] never throws, whatever the lookup does; it
    logs its warning exactly when the lookup is rejected with status 404,
    and a lookup that succeeds yields the logins of the response in
    order. *)
Theorem list_team_members_never_throws gh team :
  (∀ e, (Github.list_team_members gh team).2 ≠ Thrown e) ∧
  (Github.list_team_members gh team).1
  = (if not_found gh team then [Warning "No team was found"] else []) ∧
  (∀ response_body,
     Github.teams_listMembersInOrg gh (Github.owner gh) team
     = Returned response_body →
     Github.list_team_members gh team
     = ret (Some (Github.login <$> response_body))).
Proof.
  split_and!.
  - intros e. by rewrite list_team_members_outcome.
  - apply list_team_members_warnings.
  - intros body Hbody. unfold Github.list_team_members. by rewrite Hbody.
Qed.

(** An instance of X16. *)
Lemma list_team_members_never_throws_witness :
  Github.list_team_members
    (api_of (λ _, Returned [Github.Member "bob"; Github.Member "alice"])
       (Returned [])) "infra"
  = ret (Some ["bob"; "alice"]).
Proof.
  apply (proj2 (proj2 (list_team_members_never_throws
           (api_of (λ _, Returned [Github.Member "bob";
                                   Github.Member "alice"]) (Returned []))
           "infra")) [Github.Member "bob"; Github.Member "alice"]).
  reflexivity.
Defined.

Lemma filter_no_teams (l : list string) :
  (∀ x, x ∈ l → is_team x = false) →
  List.filter is_team l = [] ∧
  List.filter (λ reviewer, negb (is_team reviewer)) l = l.
Proof.
  induction l as [|x l IH]; intros Hl; [done|]. simpl.
  rewrite (Hl x) by left. simpl.
  destruct IH as [-> ->]; [|done]. intros y Hy. apply Hl. by right.
Qed.

(** X17.  Given candidates without a team reference, the reconciliation
    asks the API nothing and logs nothing: with [load_github_members]
    present it returns the candidates deduplicated, whatever the API would
    answer and whoever the author is. *)
Theorem fetch_author_without_teams gh (l : list string) config author b :
  load_github_members_of config = Some b →
  (∀ x, x ∈ l → is_team x = false) →
  fetch_author_belongs_to_github_team_members gh (Some <$> l) config author
  = ret (Js.uniq (Some <$> l)).
Proof.
  intros Hload Hl. rewrite (fetch_author_options _ _ _ _ _ Hload).
  unfold fetch_author_belongs_to_github_team_members. simpl.
  rewrite strings_fmap_Some. unfold Lodash.partition.
  destruct (filter_no_teams l Hl) as [Hteams Hindividuals].
  unfold is_team in Hteams, Hindividuals.
  rewrite Hteams, Hindividuals. simpl.
  destruct (force_pick_of config); simpl; by rewrite app_nil_r.
Qed.

(** An instance of X17: the author is a candidate and stays one. *)
Lemma fetch_author_without_teams_witness :
  fetch_author_belongs_to_github_team_members
    (api_of (λ _, Thrown (HttpError 500)) (Returned []))
    (Some <$> ["alice"; "bob"; "alice"]) (live_config false) "alice"
  = ret [Some "alice"; Some "bob"].
Proof.
  apply (fetch_author_without_teams _ ["alice"; "bob"; "alice"]
           (live_config false) "alice" true); [reflexivity|].
  intros x Hx. repeat (apply elem_of_cons in Hx as [->|Hx]; [done|]).
  by apply elem_of_nil in Hx.
Defined.

(** X18.  With [load_github_members] present, the reconciliation looks up
    every team reference of string candidates, once per occurrence, and
    logs one warning for each of them that is not found; it logs nothing
    else, also when it goes on to throw. *)
Theorem fetch_author_warnings gh (l : list string) config author b :
  load_github_members_of config = Some b →
  (fetch_author_belongs_to_github_team_members gh (Some <$> l) config
     author).1
  = (λ _, Warning "No team was found")
      <$> filter (λ reference, not_found gh (team_slug reference))
            (List.filter is_team l).
Proof.
  intros Hload. rewrite (fetch_author_options _ _ _ _ _ Hload).
  unfold fetch_author_belongs_to_github_team_members. simpl.
  rewrite strings_fmap_Some. unfold Lodash.partition.
  change (List.filter (λ reviewer, Js.startsWith reviewer "team:") l)
    with (List.filter is_team l).
  change (λ team_with_prefix, Js.replace team_with_prefix "team:" "")
    with team_slug.
  rewrite bind_warnings.
  rewrite (promise_all_warnings _ (roster gh))
    by apply list_team_members_outcome.
  rewrite (promise_all_outcome _ (roster gh))
    by apply list_team_members_outcome.
  rewrite bind_warnings.
  assert (∀ team_members,
            (if negb (force_pick_of config)
             then filter_includes author team_members
             else ret team_members).1 = []) as ->.
  { intros tm. destruct (force_pick_of config); [done|].
    unfold filter_includes. by destruct (mapM id tm). }
  assert (∀ o : outcome (list (option (list string))),
            match o with
            | Returned a =>
                (ret (Js.uniq
                        ((Some <$> List.filter
                                     (λ reviewer, negb (is_team reviewer)) l)
                         ++ filter (λ member, member ≠ Some author)
                              (flat a)))).1
            | Thrown _ => []
            end = []) as Hret by (by intros []).
  simpl. rewrite Hret, !app_nil_r. clear Hret.
  induction (List.filter is_team l) as [|t ts IH]; [done|].
  rewrite fmap_cons, bind_cons, IH, list_team_members_warnings.
  rewrite filter_cons. destruct (not_found gh (team_slug t)); by simpl.
Qed.

(** An instance of X18: one of the two teams referenced is unknown. *)
Lemma fetch_author_warnings_witness :
  (fetch_author_belongs_to_github_team_members
     (api_of (λ team, if String.eqb team "infra" then Returned []
                      else Thrown (HttpError 404)) (Returned []))
     (Some <$> ["team:infra"; "alice"; "team:gone"]) (live_config true)
     "alice").1
  = [Warning "No team was found"].
Proof.
  exact (fetch_author_warnings _ ["team:infra"; "alice"; "team:gone"]
           (live_config true) "alice" true eq_refl).
Defined.

(** X19.  Whenever the reconciliation returns, every candidate that is not
    a team reference is in what it returns, the author included: only
    roster members are compared with the author. *)
Theorem fetch_author_keeps_individuals gh (l : list string) config author
    result x :
  returned (fetch_author_belongs_to_github_team_members gh (Some <$> l)
              config author) = Some result →
  x ∈ l → is_team x = false →
  Some x ∈ result.
Proof.
  intros Hreturned Hx Hindividual.
  destruct (load_github_members_of config) as [b|] eqn:Hload.
  - rewrite (fetch_author_options _ _ _ _ _ Hload) in Hreturned.
    rewrite returned_outcome, fetch_author_outcome in Hreturned.
    destruct (_ : M _).2; [|done]. injection Hreturned as <-.
    rewrite elem_of_uniq, elem_of_app. left.
    apply list_elem_of_fmap_2, elem_of_partition_l.
    by rewrite Hindividual.
  - rewrite (fetch_author_absent _ _ _ _ Hload) in Hreturned.
    injection Hreturned as <-. by apply list_elem_of_fmap_2.
Qed.

(** An instance of X19: the author, listed as a candidate, is not removed
    by the reconciliation. *)
Lemma fetch_author_keeps_individuals_witness :
  let gh := api_of (λ _, Returned [Github.Member "alice";
                                   Github.Member "bob"]) (Returned []) in
  let result := [Some "alice"; Some "bob"] in
  returned (fetch_author_belongs_to_github_team_members gh
              (Some <$> ["team:infra"; "alice"]) (live_config false)
              "alice") = Some result ∧
  Some "alice" ∈ result.
Proof.
  intros gh result. split; [reflexivity|].
  apply (fetch_author_keeps_individuals gh ["team:infra"; "alice"]
           (live_config false) "alice" result "alice");
    [reflexivity | right; left | reflexivity].
Defined.


(* ===================================================================== *)
(** * Further properties of the already-requested filter *)
(* ===================================================================== *)

(** X20.  A failure of the requested-reviewers lookup is not absorbed:
    with [load_github_members] present the filter throws the very error
    the lookup is rejected with, status 404 included, and returns no
    list. *)
Theorem filter_already_propagates gh reviewers config b e :
  load_github_members_of config = Some b →
  Github.pulls_listRequestedReviewers gh = Thrown e →
  Github.list_requested_reviewers gh = throw e ∧
  filter_already_requested_reviewers gh reviewers config = throw e.
Proof.
  intros Hload Hlookup.
  assert (Github.list_requested_reviewers gh = throw e) as Hthrow.
  { unfold Github.list_requested_reviewers. by rewrite Hlookup. }
  split; [done|].
  by rewrite (filter_already_present _ _ _ _ Hload), Hthrow.
Qed.

(** An instance of X20: the lookup is rejected with status 404. *)
Lemma filter_already_propagates_witness :
  filter_already_requested_reviewers
    (api_of (λ _, Returned []) (Thrown (HttpError 404)))
    [Some "alice"] (live_config false)
  = throw (HttpError 404).
Proof.
  apply (filter_already_propagates
           (api_of (λ _, Returned []) (Thrown (HttpError 404)))
           [Some "alice"] (live_config false) true (HttpError 404));
    reflexivity.
Defined.

Lemma filter_fixed {A} (P : A → Prop) `{!∀ x, Decision (P x)} (l : list A) :
  filter P (filter P l) = filter P l.
Proof.
  rewrite list_filter_filter. apply list_filter_iff. tauto.
Qed.

(** X21.  The already-requested filter only removes, keeping the order of
    the candidates, and it is idempotent: run again on what it returned,
    against the same pull request, it returns the same list. *)
Theorem filter_already_idempotent gh reviewers config result :
  returned (filter_already_requested_reviewers gh reviewers config)
  = Some result →
  result `sublist_of` reviewers ∧
  filter_already_requested_reviewers gh result config = ret result.
Proof.
  destruct (load_github_members_of config) as [b|] eqn:Hload.
  - rewrite !(filter_already_present _ _ _ _ Hload).
    unfold Github.list_requested_reviewers.
    destruct (Github.pulls_listRequestedReviewers gh) as [body|e];
      [|done].
    rewrite !bind_ret_l. intros [= <-].
    split; [apply sublist_filter|]. by rewrite filter_fixed.
  - rewrite !(filter_already_absent _ _ _ Hload). by intros [= <-].
Qed.

(** An instance of X21. *)
Lemma filter_already_idempotent_witness :
  let gh := api_of (λ _, Returned []) (Returned [Github.Member "alice"]) in
  [Some "bob"] `sublist_of` [Some "alice"; Some "bob"] ∧
  filter_already_requested_reviewers gh [Some "bob"] (live_config false)
  = ret [Some "bob"].
Proof.
  intros gh.
  apply (filter_already_idempotent gh [Some "alice"; Some "bob"]
           (live_config false) [Some "bob"]).
  reflexivity.
Defined.

(* ===================================================================== *)
(** * The routing of the assignment *)
(* ===================================================================== *)

Lemma prefix_append (p s : string) : String.prefix p (p +:+ s) = true.
Proof. apply prefix_spec. by exists s. Qed.

Lemma drop_chars_append (p s : string) :
  Js.drop_chars (String.length p) (p +:+ s) = s.
Proof. induction p as [|c p IH]; [by destruct s|]. apply IH. Qed.

Lemma is_team_reference (slug : string) :
  is_team (team_reference slug) = true.
Proof. apply prefix_append. Qed.

(** A team reference decodes to its slug, also when the slug itself
    contains the prefix: only the leading occurrence is replaced. *)
Lemma team_slug_reference (slug : string) :
  team_slug (team_reference slug) = slug.
Proof.
  unfold team_slug, team_reference.
  assert (∀ s, Js.replace ("team:" +:+ s) "team:" "" = s) as Hreplace;
    [|apply Hreplace].
  intros s. change ("team:" +:+ s)
    with (String "t" (String "e" (String "a" (String "m"
            (String ":" s))))).
  by destruct s.
Qed.

Lemma List_filter_cons {A} (p : A → bool) x (l : list A) :
  List.filter p (x :: l)
  = if p x then x :: List.filter p l else List.filter p l.
Proof. reflexivity. Qed.

Lemma partition_references (candidates : list (string + string)) :
  (∀ login, inl login ∈ candidates → is_team login = false) →
  List.filter (λ reviewer, negb (is_team reviewer))
    (reference_of <$> candidates) = logins_of candidates ∧
  team_slug <$> List.filter is_team (reference_of <$> candidates)
  = slugs_of candidates.
Proof.
  unfold logins_of, slugs_of.
  induction candidates as [|candidate candidates IH]; intros Hlogins;
    [done|].
  destruct IH as [IH1 IH2].
  { intros l Hl. apply Hlogins. by right. }
  rewrite fmap_cons, !List_filter_cons.
  destruct candidate as [login|slug]; cbn [reference_of omap list_omap].
  - rewrite (Hlogins login) by left. cbn [negb].
    by rewrite IH1, IH2.
  - rewrite is_team_reference. cbn [negb].
    by rewrite fmap_cons, team_slug_reference, IH1, IH2.
Qed.

(** X22.  [assign_reviewers] routes each candidate by its kind: given the
    identifiers of logins and of team slugs, in any order, it requests the
    logins as reviewers and the slugs, with the prefix stripped, as team
    reviewers, both in their order, and it throws what the request is
    rejected with. *)
Theorem assign_reviewers_routes gh (candidates : list (string + string)) :
  (∀ login, inl login ∈ candidates → is_team login = false) →
  Github.assign_reviewers gh (Some <$> (reference_of <$> candidates)) =
  match Github.pulls_requestReviewers gh (logins_of candidates)
          (slugs_of candidates) with
  | Returned _ => ret tt
  | Thrown e => throw e
  end.
Proof.
  intros Hlogins. unfold Github.assign_reviewers.
  rewrite strings_fmap_Some. unfold Lodash.partition.
  change (List.filter (λ reviewer, Js.startsWith reviewer "team:")
            (reference_of <$> candidates))
    with (List.filter is_team (reference_of <$> candidates)).
  change (List.filter (λ x, negb (Js.startsWith x "team:"))
            (reference_of <$> candidates))
    with (List.filter (λ reviewer, negb (is_team reviewer))
            (reference_of <$> candidates)).
  change (λ team_with_prefix, Js.replace team_with_prefix "team:" "")
    with team_slug.
  destruct (partition_references candidates Hlogins) as [-> ->]. done.
Qed.

(** An instance of X22: a team between two logins, with a slug that
    repeats the prefix. *)
Lemma assign_reviewers_routes_witness :
  let gh :=
    {| Github.owner := "spheric";
       Github.teams_listMembersInOrg := λ _ _, Returned [];
       Github.pulls_listRequestedReviewers := Returned [];
       Github.pulls_requestReviewers := λ reviewers team_reviewers,
         if bool_decide (reviewers = ["alice"; "bob"] ∧
                         team_reviewers = ["team:core"])
         then Returned tt else Thrown (HttpError 422) |} in
  Github.assign_reviewers gh
    [Some "alice"; Some "team:team:core"; Some "bob"] = ret tt.
Proof.
  intros gh.
  refine (assign_reviewers_routes gh
            [inl "alice"; inr "team:core"; inl "bob"] _).
  intros login Hin.
  apply elem_of_cons in Hin as [[= ->]|Hin]; [reflexivity|].
  apply elem_of_cons in Hin as [[=]|Hin].
  apply elem_of_cons in Hin as [[= ->]|Hin]; [reflexivity|].
  by apply elem_of_nil in Hin.
Defined.


(* ===================================================================== *)
(** * Paginated retrieval of the changed files *)
(* ===================================================================== *)

Lemma div_step (a p : nat) : 0 < p → p ≤ a → a / p = S ((a - p) / p).
Proof.
  intros Hp Hle. replace a with ((a - p) + 1 * p) at 1 by lia.
  rewrite Nat.div_add by lia. lia.
Qed.

Lemma serve_page (all : list ChangedFiles.file) (page : nat) :
  serve all (page + 1) ChangedFiles.per_page
  = Returned (take ChangedFiles.per_page
                (drop (page * ChangedFiles.per_page) all)).
Proof. unfold serve. by rewrite Nat.add_sub. Qed.

Lemma drop_next_page {A} (l : list A) (page p : nat) :
  drop p (drop (page * p) l) = drop ((page + 1) * p) l.
Proof. rewrite drop_drop. f_equal. lia. Qed.

Lemma fetch_loop_serve (all : list ChangedFiles.file) fuel page acc :
  length (drop (page * ChangedFiles.per_page) all) / ChangedFiles.per_page
  < fuel →
  ChangedFiles.fetch_loop (serve all) fuel page acc
  = Some (ret (acc ++ (ChangedFiles.filename
                         <$> drop (page * ChangedFiles.per_page) all))).
Proof.
  assert (0 < ChangedFiles.per_page) as Hpos by (unfold ChangedFiles.per_page; lia).
  revert page acc. induction fuel as [|fuel IH]; intros page acc Hfuel;
    [lia|].
  cbn [ChangedFiles.fetch_loop]. rewrite serve_page.
  set (rest := drop (page * ChangedFiles.per_page) all) in *.
  rewrite length_take. case_decide as Hfull.
  - assert (ChangedFiles.per_page ≤ length rest) as Hle by lia.
    rewrite IH.
    + rewrite <- drop_next_page. fold rest.
      by rewrite <- app_assoc, <- fmap_app, take_drop.
    + rewrite <- drop_next_page. fold rest. rewrite length_drop.
      rewrite (div_step (length rest) _ Hpos Hle) in Hfuel. lia.
  - by rewrite take_ge by lia.
Qed.

Lemma fetch_loop_starved (all : list ChangedFiles.file) fuel page acc :
  fuel ≤ length (drop (page * ChangedFiles.per_page) all)
         / ChangedFiles.per_page →
  ChangedFiles.fetch_loop (serve all) fuel page acc = None.
Proof.
  assert (0 < ChangedFiles.per_page) as Hpos by (unfold ChangedFiles.per_page; lia).
  revert page acc. induction fuel as [|fuel IH]; intros page acc Hfuel;
    [done|].
  cbn [ChangedFiles.fetch_loop]. rewrite serve_page.
  set (rest := drop (page * ChangedFiles.per_page) all) in *.
  assert (ChangedFiles.per_page ≤ length rest) as Hle.
  { destruct (decide (ChangedFiles.per_page ≤ length rest)); [done|].
    rewrite Nat.div_small in Hfuel by lia. lia. }
  rewrite length_take, decide_True by lia.
  apply IH. rewrite <- drop_next_page. fold rest. rewrite length_drop.
  rewrite (div_step (length rest) _ Hpos Hle) in Hfuel. lia.
Qed.

(** X23.  Against a server that hands out the files of the pull request
    page by page, [fetch_changed_files] returns the names of all of them
    in order, and it takes exactly one request more than there are full
    pages: the loop ends in its [n/100 + 1]-th iteration and not
    before, so a listing of exactly 100 files costs a second, empty
    request. *)
Theorem fetch_changed_files_complete (all : list ChangedFiles.file) fuel :
  (length all / 100 < fuel →
   ChangedFiles.fetch_changed_files (serve all) fuel
   = Some (ret (ChangedFiles.filename <$> all))) ∧
  (fuel ≤ length all / 100 →
   ChangedFiles.fetch_changed_files (serve all) fuel = None).
Proof.
  unfold ChangedFiles.fetch_changed_files. split; intros Hfuel.
  - by rewrite fetch_loop_serve.
  - by apply fetch_loop_starved.
Qed.

(** An instance of X23: three files, and a hundred. *)
Lemma fetch_changed_files_complete_witness :
  let three := ChangedFiles.File <$> ["a.js"; "b.js"; "c.md"] in
  let hundred := replicate 100 (ChangedFiles.File "a.js") in
  ChangedFiles.fetch_changed_files (serve three) 1
  = Some (ret ["a.js"; "b.js"; "c.md"]) ∧
  ChangedFiles.fetch_changed_files (serve hundred) 1 = None.
Proof.
  intros three hundred. split.
  - apply (proj1 (fetch_changed_files_complete three 1)).
    vm_compute. lia.
  - apply (proj2 (fetch_changed_files_complete hundred 1)).
    vm_compute. lia.
Defined.

Lemma fetch_loop_throws listFiles k e fuel page acc :
  (∀ p, page < p < k →
        ∃ body, listFiles p ChangedFiles.per_page = Returned body ∧
                length body = ChangedFiles.per_page) →
  listFiles k ChangedFiles.per_page = Thrown e →
  page < k → k - page ≤ fuel →
  ChangedFiles.fetch_loop listFiles fuel page acc = Some (throw e).
Proof.
  intros Hfull Hthrow. revert page acc Hfull.
  induction fuel as [|fuel IH]; intros page acc Hfull Hpage Hfuel; [lia|].
  cbn [ChangedFiles.fetch_loop].
  destruct (decide (page + 1 = k)) as [->|Hne]; [by rewrite Hthrow|].
  destruct (Hfull (page + 1)) as (body & -> & Hlen); [lia|].
  rewrite decide_True by done. apply IH; [|lia..].
  intros p Hp. apply Hfull. lia.
Qed.

(** X24.  A request for a page that is rejected aborts the retrieval: if
    the pages before it are full, [fetch_changed_files] throws the error
    of that request, and the names collected from the earlier pages are
    lost. *)
Theorem fetch_changed_files_throws listFiles k e fuel :
  (∀ p, 0 < p < k →
        ∃ body, listFiles p 100 = Returned body ∧ length body = 100) →
  listFiles k 100 = Thrown e →
  0 < k ≤ fuel →
  ChangedFiles.fetch_changed_files listFiles fuel = Some (throw e).
Proof.
  intros Hfull Hthrow [Hk Hfuel].
  by apply (fetch_loop_throws listFiles k e); [..|lia].
Qed.

(** An instance of X24: the second page is rejected. *)
Lemma fetch_changed_files_throws_witness :
  let listFiles page (per_page : nat) :=
    if decide (page = 1)
    then Returned (replicate 100 (ChangedFiles.File "a.js"))
    else Thrown (HttpError 502) in
  ChangedFiles.fetch_changed_files listFiles 5
  = Some (throw (HttpError 502)).
Proof.
  intros listFiles.
  apply (fetch_changed_files_throws listFiles 2 (HttpError 502) 5).
  - intros p Hp. assert (p = 1) as -> by lia. by eexists.
  - reflexivity.
  - lia.
Defined.

(** X25.  The loop has no bound of its own: as long as every page comes
    back full, it asks for the next one, so against a server whose pages
    are all full no number of iterations ends it. *)
Theorem fetch_changed_files_unbounded listFiles fuel :
  (∀ p, 0 < p →
        ∃ body, listFiles p 100 = Returned body ∧ length body = 100) →
  ChangedFiles.fetch_changed_files listFiles fuel = None.
Proof.
  intros Hfull. unfold ChangedFiles.fetch_changed_files.
  generalize (@nil string) as acc. generalize 0 as page.
  induction fuel as [|fuel IH]; intros page acc; [done|].
  cbn [ChangedFiles.fetch_loop].
  destruct (Hfull (page + 1)) as (body & Hbody & Hlen); [lia|].
  unfold ChangedFiles.per_page. rewrite Hbody, decide_True by done.
  apply IH.
Qed.

(** An instance of X25. *)
Lemma fetch_changed_files_unbounded_witness :
  ChangedFiles.fetch_changed_files
    (λ _ _, Returned (replicate 100 (ChangedFiles.File "a.js"))) 7 = None.
Proof.
  apply fetch_changed_files_unbounded. intros p _. by eexists.
Defined.


(* ===================================================================== *)
(** * The memoised run context *)
(* ===================================================================== *)

Section cache_properties.
Context {context octokit : Type}.
Implicit Types (env : Cache.environment context octokit)
  (c : Cache.caches context octokit).

(** X26.  The getters memoise what they read: once [get_context] has
    run, and once [get_token] or [get_config_path] has returned a
    non-empty string, every later call returns that same value and
    leaves the caches alone, whatever the environment has become. *)
Theorem getters_memoise env env' c :
  Cache.get_context env' (Cache.get_context env c).2
  = Cache.get_context env c ∧
  ((Cache.get_token env c).1 ≠ "" →
   Cache.get_token env' (Cache.get_token env c).2 = Cache.get_token env c) ∧
  ((Cache.get_config_path env c).1 ≠ "" →
   Cache.get_config_path env' (Cache.get_config_path env c).2
   = Cache.get_config_path env c).
Proof.
  split_and!.
  - unfold Cache.get_context.
    destruct (Cache.context_cache c) eqn:Hc; simpl; [by rewrite Hc|done].
  - unfold Cache.get_token.
    destruct (Cache.cached_string (Cache.token_cache c)) as [t|] eqn:Hc;
      simpl.
    + by rewrite Hc.
    + intros Hne. by destruct (Cache.getInput env "token").
  - unfold Cache.get_config_path.
    destruct (Cache.cached_string (Cache.config_path_cache c)) as [t|]
      eqn:Hc; simpl.
    + by rewrite Hc.
    + intros Hne. by destruct (Cache.getInput env "config").
Qed.

(** X27.  An empty string is never served from the cache: while the
    [token] input reads as empty, each call of [get_token] reads the
    input again, so a token supplied later is picked up without
    [clear_cache]. *)
Theorem get_token_empty_not_memoised env env' c :
  Cache.cached_string (Cache.token_cache c) = None →
  Cache.getInput env "token" = "" →
  (Cache.get_token env' (Cache.get_token env c).2).1
  = Cache.getInput env' "token".
Proof.
  intros Hnone Hempty. unfold Cache.get_token at 2. rewrite Hnone.
  unfold Cache.get_token. simpl. by rewrite Hempty.
Qed.

(** X28.  [clear_cache] forgets everything: it yields the state of a
    freshly loaded module, in which each getter reads the environment of
    the moment, the client being built from the token input. *)
Theorem clear_cache_resets env c :
  Cache.clear_cache c = Cache.initial ∧
  (Cache.get_context env (Cache.clear_cache c)).1
  = Cache.github_context env ∧
  (Cache.get_token env (Cache.clear_cache c)).1
  = Cache.getInput env "token" ∧
  (Cache.get_config_path env (Cache.clear_cache c)).1
  = Cache.getInput env "config" ∧
  (Cache.get_octokit env (Cache.clear_cache c)).1
  = Cache.getOctokit env (Cache.getInput env "token").
Proof.
  split_and!; try done.
  unfold Cache.get_octokit, Cache.clear_cache. simpl.
  by destruct (Cache.getOctokit env _).
Qed.

(** X29.  The API client is built at most once: after [get_octokit] has
    returned a client, every later call returns that client and leaves
    the caches alone, whatever the environment has become; when building
    the client throws, the error is passed on and no client is cached, so
    the next call tries again. *)
Theorem get_octokit_once env env' c :
  (∀ client,
     (Cache.get_octokit env c).1 = Returned client →
     Cache.get_octokit env' (Cache.get_octokit env c).2
     = (Returned client, (Cache.get_octokit env c).2)) ∧
  (∀ e,
     (Cache.get_octokit env c).1 = Thrown e →
     Cache.octokit_cache (Cache.get_octokit env c).2 = None ∧
     (Cache.get_octokit env' (Cache.get_octokit env c).2).1
     = Cache.getOctokit env'
         (Cache.get_token env' (Cache.get_token env c).2).1).
Proof.
  unfold Cache.get_octokit.
  destruct (Cache.octokit_cache c) as [cached|] eqn:Hcached; simpl.
  - rewrite Hcached. split; [by intros client [= ->] | done].
  - destruct (Cache.get_token env c) as [token c'] eqn:Htoken.
    assert (Cache.octokit_cache c' = None) as Hnone.
    { unfold Cache.get_token in Htoken.
      destruct (Cache.cached_string _); by injection Htoken as <- <-. }
    destruct (Cache.getOctokit env token) as [client|e] eqn:Hbuild; simpl.
    + split; [by intros ? [= ->] | done].
    + split; [done|]. intros e' [= <-]. split; [done|].
      rewrite Hnone. destruct (Cache.get_token env' c') as [token' c''].
      simpl. by destruct (Cache.getOctokit env' token').
Qed.
End cache_properties.

(** An instance of X26: a token read once outlives a change of the
    input. *)
Lemma getters_memoise_witness :
  let env : Cache.environment unit string :=
    {| Cache.github_context := tt; Cache.getInput := λ name, "s3cret";
       Cache.getOctokit := Returned |} in
  let env' : Cache.environment unit string :=
    {| Cache.github_context := tt; Cache.getInput := λ name, "other";
       Cache.getOctokit := Returned |} in
  Cache.get_token env' (Cache.get_token env Cache.initial).2
  = Cache.get_token env Cache.initial.
Proof.
  intros env env'.
  apply (proj1 (proj2 (getters_memoise env env' Cache.initial))). done.
Defined.

(** An instance of X27: the token input is empty at first. *)
Lemma get_token_empty_not_memoised_witness :
  let env : Cache.environment unit string :=
    {| Cache.github_context := tt; Cache.getInput := λ name, "";
       Cache.getOctokit := Returned |} in
  let env' : Cache.environment unit string :=
    {| Cache.github_context := tt; Cache.getInput := λ name, "s3cret";
       Cache.getOctokit := Returned |} in
  (Cache.get_token env' (Cache.get_token env Cache.initial).2).1 = "s3cret".
Proof.
  intros env env'.
  apply (get_token_empty_not_memoised env env' Cache.initial); reflexivity.
Defined.

(** An instance of X29: the client built first is served afterwards. *)
Lemma get_octokit_once_witness :
  let env : Cache.environment unit string :=
    {| Cache.github_context := tt; Cache.getInput := λ name, "s3cret";
       Cache.getOctokit := Returned |} in
  let env' : Cache.environment unit string :=
    {| Cache.github_context := tt; Cache.getInput := λ name, "other";
       Cache.getOctokit := λ _, Thrown TypeError |} in
  (Cache.get_octokit env' (Cache.get_octokit env Cache.initial).2).1
  = Returned "s3cret".
Proof.
  intros env env'.
  rewrite (proj1 (get_octokit_once env env' Cache.initial) "s3cret");
    reflexivity.
Defined.


(* ===================================================================== *)
(** * The default reviewers *)
(* ===================================================================== *)

(** X30.  The default reviewers are, without duplicates and in the order
    of their first occurrence, the one-level expansion of
    [reviewers.defaults] minus the excluded identifiers; there are none
    when the configuration has no [reviewers] section or no array under
    [defaults]. *)
Theorem fetch_default_reviewers_spec config (excludes : list string) :
  (reviewers config ≫= defaults = None →
   fetch_default_reviewers config excludes = []) ∧
  (∀ listed,
     reviewers config ≫= defaults = Some listed →
     NoDup (fetch_default_reviewers config excludes) ∧
     fetch_default_reviewers config excludes
       `sublist_of` replace_groups_with_individuals listed config ∧
     ∀ x, x ∈ fetch_default_reviewers config excludes ↔
          x ∈ replace_groups_with_individuals listed config ∧
          x ∉ excludes).
Proof.
  unfold fetch_default_reviewers. split; [by intros ->|].
  intros listed ->. split_and!.
  - apply NoDup_exclude_reviewers.
  - unfold exclude_reviewers. etrans; [apply sublist_filter|].
    apply uniq_sublist.
  - intros x. apply elem_of_exclude_reviewers.
Qed.

(** An instance of X30: a group and one of its members are listed, and
    the author is excluded. *)
Lemma fetch_default_reviewers_spec_witness :
  let config :=
    {| options := None;
       reviewers := Some {| defaults := Some ["carol"; "backend"; "alice"];
                            per_author := None;
                            groups := Some [("backend", ["bob"; "carol"])] |};
       files := None |} in
  fetch_default_reviewers empty_config ["alice"] = [] ∧
  fetch_default_reviewers config ["alice"]
    `sublist_of` replace_groups_with_individuals
                   ["carol"; "backend"; "alice"] config ∧
  fetch_default_reviewers config ["alice"] = ["carol"; "bob"].
Proof.
  intros config.
  destruct (fetch_default_reviewers_spec empty_config ["alice"])
    as [Hnone _].
  destruct (fetch_default_reviewers_spec config ["alice"]) as [_ Hsome].
  destruct (Hsome ["carol"; "backend"; "alice"]) as (_ & Hsub & _);
    [reflexivity|].
  split; [by apply Hnone|]. split; [exact Hsub | reflexivity].
Defined.
